(** * Real-Time-Checkers signaling server: rooms, matchmaking, relay

    A shallow embedding of [signaling-server.js].  The server keeps one
    global [state] object (room table, matchmaking queue, counters) and
    attaches three fields to every WebSocket object ([displayName],
    [roomId], [lastNewGameReqId]).  Every handler runs to completion on
    one inbound event, so a handler is a function from states to states.
    What the server says to its clients is kept as a log of the calls to
    [utils.send]. *)

From Stdlib Require Import QArith_base Qcanon.
From stdpp Require Import base tactics option numbers countable list strings
  gmap fin_maps.

Local Open Scope string_scope.
Local Open Scope list_scope.
Local Open Scope Z_scope.

(** ** JavaScript values carried by the messages *)

(** A field of a parsed JSON message, or of a socket object.  Strings
    are sequences of code units and [String.length] is their [.length];
    a JSON number is a rational; [JObj n text] is an object or an array,
    of identity [n]; [text] tells whether it can be converted to a
    string: it cannot when neither its [toString] nor its [valueOf] gives
    a primitive, as for an object parsed from a text whose [toString]
    member is a number, and the conversion then throws a [TypeError]. *)
Inductive jsval : Type :=
  | JUndef
  | JNull
  | JBool (b : bool)
  | JNum (q : Qc)
  | JStr (s : string)
  | JObj (n : nat) (text : bool).

#[global] Instance jsval_eq_dec : EqDecision jsval.
Proof. solve_decision. Defined.

Definition jsval_code (v : jsval)
    : unit + unit + bool + Qc + string + nat * bool :=
  match v with
  | JUndef => inl (inl (inl (inl (inl ()))))
  | JNull => inl (inl (inl (inl (inr ()))))
  | JBool b => inl (inl (inl (inr b)))
  | JNum q => inl (inl (inr q))
  | JStr s => inl (inr s)
  | JObj n text => inr (n, text)
  end.

Definition jsval_decode (c : unit + unit + bool + Qc + string + nat * bool)
    : jsval :=
  match c with
  | inl (inl (inl (inl (inl _)))) => JUndef
  | inl (inl (inl (inl (inr _)))) => JNull
  | inl (inl (inl (inr b))) => JBool b
  | inl (inl (inr q)) => JNum q
  | inl (inr s) => JStr s
  | inr (n, text) => JObj n text
  end.

#[global] Instance jsval_countable : Countable jsval.
Proof.
  refine (inj_countable' jsval_code jsval_decode _).
  intros []; reflexivity.
Defined.

(** [ToBoolean]: what [x || y] and [!x] test. *)
Definition truthy (v : jsval) : bool :=
  match v with
  | JUndef | JNull => false
  | JBool b => b
  | JNum q => if decide (q = 0%Qc) then false else true
  | JStr s => if decide (s = "") then false else true
  | JObj _ _ => true
  end.

(** [a || b] *)
Definition js_or (a b : jsval) : jsval := if truthy a then a else b.

(** Whether [ToString] gives a string for the value, as a template
    literal and [Array.prototype.join] ask of it; where it does not, a
    [TypeError] is thrown. *)
Definition stringifies (v : jsval) : bool :=
  match v with
  | JObj _ text => text
  | _ => true
  end.

(** ** Sockets, rooms and the server state *)

(** A WebSocket object is known by its identity. *)
Abbreviation conn := nat (only parsing).

Inductive ReadyState : Type := CONNECTING | OPEN | CLOSING | CLOSED.

#[global] Instance ReadyState_eq_dec : EqDecision ReadyState.
Proof. solve_decision. Defined.

(** The fields of a socket object the server reads or writes. *)
Record Socket : Type := mkSocket {
  readyState : ReadyState;
  displayName : jsval;
  roomId : jsval;
  lastNewGameReqId : jsval
}.

(** The socket as the [connection] event hands it over. *)
Definition fresh_socket : Socket :=
  {| readyState := OPEN; displayName := JUndef; roomId := JUndef;
     lastNewGameReqId := JUndef |}.

(** [ws.readyState === ws.OPEN] *)
Definition is_open (s : Socket) : bool := bool_decide (readyState s = OPEN).

(** A room: [{ players, isPrivate, createdAt, ready: { p1, p2 } }]. *)
Record Room : Type := mkRoom {
  players : list conn;
  isPrivate : bool;
  createdAt : Z;
  ready_p1 : bool;
  ready_p2 : bool
}.

#[global] Instance Room_eq_dec : EqDecision Room.
Proof. solve_decision. Defined.

(** A parsed inbound message; [msg_body] stands for all the other fields
    (the SDP or ICE payload), which the server never reads. *)
Record Data : Type := mkData {
  msg_type : jsval;
  msg_displayName : jsval;
  msg_roomId : jsval;
  msg_reqId : jsval;
  msg_body : string
}.

(** The objects handed to [utils.send]. *)
Inductive Outbound : Type :=
  | Error_ (message : string)
  | Waiting
  | MatchFound (room : jsval) (isCaller : bool) (opponentName : jsval)
  | RoomInvalid (room : jsval)
  | RoomFull (room : jsval)
  | OpponentDisconnected
  | OpponentRequestedNewGame (reqId : jsval)
  | StartNewGame (reqId : jsval)
  | Relayed (data : Data).

(** One call [utils.send(ws, data)]; [on_wire] tells whether the socket
    was OPEN, that is whether [ws.send] ran. *)
Record Sent : Type := mkSent {
  target : conn;
  payload : Outbound;
  on_wire : bool
}.

Record State : Type := mkState {
  rooms : gmap jsval Room;
  waitingPlayers : list conn;
  totalGamesPlayed : nat;
  totalPlayersJoined : nat;
  sockets : conn -> Socket;
  sent : list Sent
}.

(** The state at start-up, no socket having been touched yet. *)
Definition init : State :=
  {| rooms := ∅; waitingPlayers := []; totalGamesPlayed := 0;
     totalPlayersJoined := 0; sockets := fun _ => fresh_socket; sent := [] |}.

(** *** Field updates *)

Definition set_rooms (m : gmap jsval Room) (st : State) : State :=
  {| rooms := m; waitingPlayers := waitingPlayers st;
     totalGamesPlayed := totalGamesPlayed st;
     totalPlayersJoined := totalPlayersJoined st;
     sockets := sockets st; sent := sent st |}.

Definition set_waitingPlayers (q : list conn) (st : State) : State :=
  {| rooms := rooms st; waitingPlayers := q;
     totalGamesPlayed := totalGamesPlayed st;
     totalPlayersJoined := totalPlayersJoined st;
     sockets := sockets st; sent := sent st |}.

Definition set_totalGamesPlayed (n : nat) (st : State) : State :=
  {| rooms := rooms st; waitingPlayers := waitingPlayers st;
     totalGamesPlayed := n;
     totalPlayersJoined := totalPlayersJoined st;
     sockets := sockets st; sent := sent st |}.

Definition set_totalPlayersJoined (n : nat) (st : State) : State :=
  {| rooms := rooms st; waitingPlayers := waitingPlayers st;
     totalGamesPlayed := totalGamesPlayed st;
     totalPlayersJoined := n;
     sockets := sockets st; sent := sent st |}.

Definition set_sent (l : list Sent) (st : State) : State :=
  {| rooms := rooms st; waitingPlayers := waitingPlayers st;
     totalGamesPlayed := totalGamesPlayed st;
     totalPlayersJoined := totalPlayersJoined st;
     sockets := sockets st; sent := l |}.

(** Assignment to a field of the socket object [ws]: every holder of
    the reference (queue, rooms) sees it. *)
Definition update_socket (ws : conn) (f : Socket -> Socket) (st : State) : State :=
  {| rooms := rooms st; waitingPlayers := waitingPlayers st;
     totalGamesPlayed := totalGamesPlayed st;
     totalPlayersJoined := totalPlayersJoined st;
     sockets := fun c => if decide (c = ws) then f (sockets st c) else sockets st c;
     sent := sent st |}.

Definition set_readyState (r : ReadyState) (s : Socket) : Socket :=
  {| readyState := r; displayName := displayName s; roomId := roomId s;
     lastNewGameReqId := lastNewGameReqId s |}.

Definition set_displayName (v : jsval) (s : Socket) : Socket :=
  {| readyState := readyState s; displayName := v; roomId := roomId s;
     lastNewGameReqId := lastNewGameReqId s |}.

Definition set_roomId (v : jsval) (s : Socket) : Socket :=
  {| readyState := readyState s; displayName := displayName s; roomId := v;
     lastNewGameReqId := lastNewGameReqId s |}.

Definition set_lastNewGameReqId (v : jsval) (s : Socket) : Socket :=
  {| readyState := readyState s; displayName := displayName s;
     roomId := roomId s; lastNewGameReqId := v |}.

Definition set_players (l : list conn) (r : Room) : Room :=
  {| players := l; isPrivate := isPrivate r; createdAt := createdAt r;
     ready_p1 := ready_p1 r; ready_p2 := ready_p2 r |}.

Definition set_ready (p1 p2 : bool) (r : Room) : Room :=
  {| players := players r; isPrivate := isPrivate r; createdAt := createdAt r;
     ready_p1 := p1; ready_p2 := p2 |}.

(** [ws.readyState === ws.OPEN] on the socket [ws] of the state. *)
Definition live (st : State) (ws : conn) : bool := is_open (sockets st ws).

(** [array.find(p => p !== ws)] *)
Definition find_other (ws : conn) (l : list conn) : option conn :=
  List.find (fun p => negb (bool_decide (p = ws))) l.

(** [array.indexOf(ws)] *)
Fixpoint indexOf (ws : conn) (l : list conn) : option nat :=
  match l with
  | [] => None
  | p :: l' => if decide (p = ws) then Some 0%nat else S <$> indexOf ws l'
  end.

(** ** How a call ends *)

(** A call returns a result, or an exception leaves it.  Either way the
    state is the one the call has made by then: what it assigned and
    sent before the exception stays. *)
Inductive Completion (A : Type) : Type :=
  | Returns (result : A) (st : State)
  | Throws (st : State).

Arguments Returns {A} result st.
Arguments Throws {A} st.

(** The state a call leaves behind, read wherever a completion stands
    for a state. *)
Definition state {A : Type} (c : Completion A) : State :=
  match c with
  | Returns _ st => st
  | Throws st => st
  end.

Coercion state : Completion >-> State.

(** The result of a call that returned *)
Definition returned {A : Type} (c : Completion A) : option A :=
  match c with
  | Returns a _ => Some a
  | Throws _ => None
  end.

(** A call written as a statement: its result is dropped, its
    exception goes on to the caller. *)
Definition discard {A : Type} (c : Completion A) : Completion unit :=
  match c with
  | Returns _ st => Returns () st
  | Throws st => Throws st
  end.

(** Whether the display name of the socket can be written into a log
    line. *)
Definition printable (st : State) (p : conn) : bool :=
  stringifies (displayName (sockets st p)).

(** ** Utilities *)

(** [s.substring(a, b)] for [a <= b]: the code units from index [a] up
    to, not including, index [b], clamped to the string. *)
Definition js_substring (a b : nat) (s : string) : string :=
  String.substring a (b - a) s.

(** [toUpperCase] on the code units it can meet here, the ASCII ones. *)
Definition upper_ascii (c : Ascii.ascii) : Ascii.ascii :=
  let n := Ascii.nat_of_ascii c in
  if ((97 <=? n) && (n <=? 122))%nat then Ascii.ascii_of_nat (n - 32) else c.

Fixpoint toUpperCase (s : string) : string :=
  match s with
  | EmptyString => EmptyString
  | String c s' => String (upper_ascii c) (toUpperCase s')
  end.

(** The random source.  [Math.random()] returns a number [r] with
    [0 <= r < 1], and [r.toString(36)] writes it in radix 36: ["0"] when
    [r] is zero, otherwise ["0."] followed by the digits of the fraction.
    A value of the source is given by these digits, each below 36:
    [[18]] is one half, [[]] is zero. *)
Definition digit36 (d : nat) : Ascii.ascii :=
  if (d <? 10)%nat then Ascii.ascii_of_nat (48 + d) else Ascii.ascii_of_nat (87 + d).

Definition toString36 (frac : list nat) : string :=
  match frac with
  | [] => "0"
  | _ => "0." +:+ String.string_of_list_ascii (map digit36 frac)
  end.

Module utils.

(** [send(ws, data)]: transmits when the socket is OPEN, does nothing
    otherwise; a failure of [ws.send] itself is caught and logged. *)
Definition send (ws : conn) (data : Outbound) (st : State) : State :=
  set_sent (sent st ++ [mkSent ws data (live st ws)]) st.

(** [Math.random().toString(36).substring(2, 10).toUpperCase()] *)
Definition generateRoomId (rnd : list nat) : string :=
  toUpperCase (js_substring 2 10 (toString36 rnd)).

(** [typeof roomId === 'string' && roomId.length >= 4 && roomId.length <= 12] *)
Definition isValidRoomId (roomId : jsval) : bool :=
  match roomId with
  | JStr s => ((4 <=? String.length s) && (String.length s <=? 12))%nat
  | _ => false
  end.

(** [getOpponent(ws, roomId)] *)
Definition getOpponent (ws : conn) (roomId : jsval) (st : State) : option conn :=
  match rooms st !! roomId with
  | None => None
  | Some room => find_other ws (players room)
  end.

(** [broadcastToRoom(roomId, data, excludeWs = null)] *)
Definition broadcastToRoom (roomId : jsval) (data : Outbound)
    (excludeWs : option conn) (st : State) : State :=
  match rooms st !! roomId with
  | None => st
  | Some room =>
      foldl (fun acc player =>
               if decide (Some player = excludeWs) then acc
               else send player data acc)
            st (players room)
  end.

End utils.

(** ** Room management *)

(** The body of the two [room.players.forEach((player, index) => ...)]
    loops that announce a match (one in [rooms.join], one in
    [matchmaking.joinPublicQueue]): the player at [index] is told the
    room, whether it is the caller, and the other player's name. *)
(** [ps.find(p => p !== player)?.displayName || "Opponent"], the name
    a player is given in the announcement *)
Definition opponentName (ps : list conn) (player : conn) (st : State) : jsval :=
  let opponent := find_other player ps in
  js_or (from_option (fun o => displayName (sockets st o)) JUndef opponent)
        (JStr "Opponent").

Definition announceTo (roomId : jsval) (ps : list conn) (index : nat)
    (player : conn) (st : State) : State :=
  utils.send player
    (MatchFound roomId (bool_decide (index = 0%nat)) (opponentName ps player st))
    st.

(** [ps.forEach((player, index) => ...)], the indices starting at [index] *)
Fixpoint announceFrom (roomId : jsval) (ps : list conn) (index : nat)
    (todo : list conn) (st : State) : State :=
  match todo with
  | [] => st
  | player :: todo' =>
      announceFrom roomId ps (S index) todo' (announceTo roomId ps index player st)
  end.

Definition announceMatch (roomId : jsval) (ps : list conn) (st : State) : State :=
  announceFrom roomId ps 0 ps st.

Module rooms.

(** [create(roomId, firstPlayer, isPrivate = false)]; [now] is what
    [Date.now()] returns. *)
Definition create (now : Z) (roomId : jsval) (firstPlayer : conn)
    (isPrivate : bool) (st : State) : State :=
  let st := set_rooms (<[roomId :=
               {| players := [firstPlayer]; isPrivate := isPrivate;
                  createdAt := now; ready_p1 := false; ready_p2 := false |}]>
             (rooms st)) st in
  update_socket firstPlayer (set_roomId roomId) st.

(** [join(roomId, player)], with its boolean result.  Of its two log
    lines, the first writes [roomId] and the second the display names of
    the players, [room.players.map(p => p.displayName).join(' vs ')],
    and [roomId]: where one of these cannot be converted to a string
    the call throws, after the push and the assignment of [roomId] and
    before any announcement. *)
Definition join (roomId : jsval) (player : conn) (st : State)
    : Completion bool :=
  match rooms st !! roomId with
  | None => Returns false st
  | Some room =>
      if (2 <=? length (players room))%nat then
        Returns false (utils.send player (Error_ "Room is full") st)
      else
        let room := set_players (players room ++ [player]) room in
        let st := set_rooms (<[roomId := room]> (rooms st)) st in
        let st := update_socket player (set_roomId roomId) st in
        if stringifies roomId && forallb (printable st) (players room) then
          Returns true (announceMatch roomId (players room) st)
        else
          Throws st
  end.

(** [remove(roomId)] *)
Definition remove (roomId : jsval) (st : State) : State :=
  match rooms st !! roomId with
  | Some _ => set_rooms (delete roomId (rooms st)) st
  | None => st
  end.

(** [handleDisconnect(ws)] *)
Definition handleDisconnect (ws : conn) (st : State) : State :=
  let roomId := roomId (sockets st ws) in
  if negb (truthy roomId) then st
  else
    match rooms st !! roomId with
    | None => st
    | Some room =>
        let st :=
          match find_other ws (players room) with
          | Some opponent =>
              if live st opponent then utils.send opponent OpponentDisconnected st
              else st
          | None => st
          end in
        remove roomId st
    end.

End rooms.

(** ** Matchmaking *)

Module matchmaking.

(** [joinPublicQueue(ws)]; [rnd] is the value of the random source and
    [now] the clock, both read only when a room is made.  An exception
    of [rooms.join] leaves the function at that call. *)
Definition joinPublicQueue (rnd : list nat) (now : Z) (ws : conn)
    (st : State) : Completion unit :=
  let st := set_waitingPlayers (filter (fun p => live st p) (waitingPlayers st)) st in
  match waitingPlayers st with
  | opponent :: rest =>
      let st := set_waitingPlayers rest st in
      let roomId := JStr (utils.generateRoomId rnd) in
      let st := rooms.create now roomId opponent false st in
      let st := update_socket opponent
                  (fun s => set_displayName (js_or (displayName s) (JStr "Player")) s) st in
      let st := update_socket ws
                  (fun s => set_displayName (js_or (displayName s) (JStr "Player")) s) st in
      match rooms.join roomId ws st with
      | Throws st => Throws st
      | Returns _ st =>
          Returns ()
            match rooms st !! roomId with
            | Some room =>
                if (length (players room) =? 2)%nat
                then announceMatch roomId (players room) st
                else st
            | None => st
            end
      end
  | [] =>
      let st := set_waitingPlayers (waitingPlayers st ++ [ws]) st in
      Returns () (utils.send ws Waiting st)
  end.

(** [removeFromQueue(ws)]: [splice(index, 1)] at the first occurrence *)
Definition removeFromQueue (ws : conn) (st : State) : State :=
  match indexOf ws (waitingPlayers st) with
  | Some index => set_waitingPlayers (delete index (waitingPlayers st)) st
  | None => st
  end.

End matchmaking.

(** ** Game actions *)

Module gameActions.

(** [handleNewGameRequest(ws, data)] *)
Definition handleNewGameRequest (rnd : list nat) (ws : conn) (data : Data)
    (st : State) : State :=
  let roomId := msg_roomId data in
  match rooms st !! roomId with
  | None => st
  | Some room =>
      if negb (length (players room) =? 2)%nat then st
      else
        match indexOf ws (players room) with
        | None => st
        | Some playerIndex =>
            let requestId := js_or (msg_reqId data) (JStr (utils.generateRoomId rnd)) in
            let room :=
              if decide (playerIndex = 0%nat)
              then set_ready true (ready_p2 room) room
              else set_ready (ready_p1 room) true room in
            let st := set_rooms (<[roomId := room]> (rooms st)) st in
            let st := update_socket ws (set_lastNewGameReqId requestId) st in
            let opponent := utils.getOpponent ws roomId st in
            if ready_p1 room && ready_p2 room then
              let room := set_ready false false room in
              let st := set_rooms (<[roomId := room]> (rooms st)) st in
              let st := set_totalGamesPlayed (S (totalGamesPlayed st)) st in
              let st := utils.broadcastToRoom roomId (StartNewGame requestId) None st in
              foldl (fun acc p => update_socket p (set_lastNewGameReqId JNull) acc)
                    st (players room)
            else
              match opponent with
              | Some o =>
                  if live st o
                  then utils.send o (OpponentRequestedNewGame requestId) st
                  else st
              | None => st
              end
        end
  end.

(** [relaySignal(ws, data)] *)
Definition relaySignal (ws : conn) (data : Data) (st : State) : State :=
  match utils.getOpponent ws (msg_roomId data) st with
  | Some opponent =>
      if live st opponent then utils.send opponent (Relayed data) st else st
  | None => st
  end.

End gameActions.

(** ** Message handlers *)

Module handlers.

(** [ws.displayName = data.displayName || "Player"] *)
Definition nameSocket (ws : conn) (data : Data) (st : State) : State :=
  update_socket ws
    (set_displayName (js_or (msg_displayName data) (JStr "Player"))) st.

Definition joinPublic (rnd : list nat) (now : Z) (ws : conn) (data : Data)
    (st : State) : Completion unit :=
  matchmaking.joinPublicQueue rnd now ws (nameSocket ws data st).

Definition createPrivate (now : Z) (ws : conn) (data : Data) (st : State) : State :=
  let st := nameSocket ws data st in
  let roomId := msg_roomId data in
  if negb (utils.isValidRoomId roomId) then
    utils.send ws (Error_ "Invalid room ID format") st
  else if bool_decide (is_Some (rooms st !! roomId)) then
    utils.send ws (Error_ "Room ID already exists") st
  else
    utils.send ws Waiting (rooms.create now roomId ws true st).

Definition joinPrivate (ws : conn) (data : Data) (st : State)
    : Completion unit :=
  let st := nameSocket ws data st in
  let roomId := msg_roomId data in
  if negb (utils.isValidRoomId roomId) then
    Returns () (utils.send ws (Error_ "Invalid room ID format") st)
  else
    match rooms st !! roomId with
    | None => Returns () (utils.send ws (RoomInvalid roomId) st)
    | Some room =>
        if (2 <=? length (players room))%nat then
          Returns () (utils.send ws (RoomFull roomId) st)
        else discard (rooms.join roomId ws st)
    end.

Definition offer := gameActions.relaySignal.
Definition answer := gameActions.relaySignal.
Definition ice := gameActions.relaySignal.

Definition readyForNewGame := gameActions.handleNewGameRequest.

End handlers.

(** ** Connection handling and clean-up *)

(** [wss.on('connection', ...)]: the new socket is counted; its
    listeners are the handlers, [onClose] and a logger. *)
Definition onConnection (ws : conn) (st : State) : State :=
  set_totalPlayersJoined (S (totalPlayersJoined st)) st.

(** [ws.on('close', ...)] *)
Definition onClose (ws : conn) (st : State) : State :=
  rooms.handleDisconnect ws (matchmaking.removeFromQueue ws st).

(** [24 * 60 * 60 * 1000] milliseconds *)
Definition maxAge : Z := 24 * 60 * 60 * 1000.

(** [room.players.some(p => p.readyState === p.OPEN)] *)
Definition hasActivePlayer (st : State) (room : Room) : bool :=
  existsb (live st) (players room).

(** The test of the clean-up loop on one room. *)
Definition stale (st : State) (now : Z) (room : Room) : bool :=
  negb (hasActivePlayer st room) || (maxAge <? now - createdAt room).

(** The timer callback: [for (const [roomId, room] of state.rooms.entries())]
    deleting from the table as it goes. *)
Definition sweep_entry (st : State) (now : Z) (entry : jsval * Room)
    (acc : gmap jsval Room) : gmap jsval Room :=
  if stale st now entry.2 then delete entry.1 acc else acc.

Definition cleanup (now : Z) (st : State) : State :=
  set_rooms (foldr (sweep_entry st now) (rooms st) (map_to_list (rooms st))) st.

(** ** The server as a transition system *)

Inductive Handler : Type :=
  | HJoinPublic | HCreatePrivate | HJoinPrivate
  | HOffer | HAnswer | HIce | HReadyForNewGame.

(** What can happen to the server: a socket connects, a message
    reaches one of its handlers, a socket closes, the clean-up timer
    fires, or the transport layer moves a socket to another ready state.
    A message comes with the clock and the value the random source would
    give. *)
Inductive Input : Type :=
  | Connection (ws : conn)
  | Message (h : Handler) (ws : conn) (data : Data) (now : Z) (rnd : list nat)
  | Close (ws : conn)
  | Sweep (now : Z)
  | Transport (ws : conn) (r : ReadyState).

(** The dispatcher's [try { handlers[type](ws, data) } catch (err)
    { ... }]: an exception of the handler is answered to the sender. *)
Definition caught (ws : conn) (c : Completion unit) : State :=
  match c with
  | Returns _ st => st
  | Throws st => utils.send ws (Error_ "Server error occurred") st
  end.

(** The handlers that never throw are run as they are. *)
Definition step (i : Input) (st : State) : State :=
  match i with
  | Connection ws => onConnection ws st
  | Message HJoinPublic ws data now rnd =>
      caught ws (handlers.joinPublic rnd now ws data st)
  | Message HCreatePrivate ws data now _ => handlers.createPrivate now ws data st
  | Message HJoinPrivate ws data _ _ =>
      caught ws (handlers.joinPrivate ws data st)
  | Message HOffer ws data _ _ => handlers.offer ws data st
  | Message HAnswer ws data _ _ => handlers.answer ws data st
  | Message HIce ws data _ _ => handlers.ice ws data st
  | Message HReadyForNewGame ws data _ rnd => handlers.readyForNewGame rnd ws data st
  | Close ws => onClose ws st
  | Sweep now => cleanup now st
  | Transport ws r => update_socket ws (set_readyState r) st
  end.

(** The inputs are handled one after the other, the first of the list
    first. *)
Definition run (inputs : list Input) (st : State) : State :=
  foldl (fun acc i => step i acc) st inputs.

Inductive reachable : State -> Prop :=
  | reachable_init : reachable init
  | reachable_step i st : reachable st -> reachable (step i st).

(** ** Well-formed states *)

(** A room holds one player, under an id that passed [isValidRoomId],
    or two. *)
Definition room_ok (k : jsval) (r : Room) : Prop :=
  (length (players r) = 1%nat ∧ utils.isValidRoomId k = true)
  ∨ length (players r) = 2%nat.

Definition rooms_ok (m : gmap jsval Room) : Prop :=
  ∀ k r, m !! k = Some r → room_ok k r.

(** The queue holds at most one socket, and every room is well formed. *)
Definition Inv (st : State) : Prop :=
  (length (waitingPlayers st) ≤ 1)%nat ∧ rooms_ok (rooms st).

(** ** The id format as the specification words it *)

(** [[A-Za-z0-9]] *)
Definition alphanumeric (c : Ascii.ascii) : bool :=
  let n := Ascii.nat_of_ascii c in
  ((48 <=? n) && (n <=? 57) || (65 <=? n) && (n <=? 90)
   || (97 <=? n) && (n <=? 122))%nat.

(** [[0-9A-Z]]: the digits and the capital letters *)
Definition digit_or_capital (c : Ascii.ascii) : bool :=
  let n := Ascii.nat_of_ascii c in
  ((48 <=? n) && (n <=? 57) || (65 <=? n) && (n <=? 90))%nat.

(** From the specification, not from the code: an id is a string of 4
    to 12 characters, each matching [[A-Za-z0-9]].  To be compared with
    [utils.isValidRoomId]. *)
Definition spec_id_format (v : jsval) : bool :=
  match v with
  | JStr s =>
      ((4 <=? String.length s) && (String.length s <=? 12))%nat
      && forallb alphanumeric (String.list_ascii_of_string s)
  | _ => false
  end.

(** The caller [ws] is in one slot of the room and [opp] in the other;
    [theirs] is the flag of the other slot and [marked] the room once the
    caller's own flag is set. *)
Definition seated (ws opp : conn) (room : Room) (theirs : bool) (marked : Room) : Prop :=
  (players room = [ws; opp] ∧ theirs = ready_p2 room
   ∧ marked = set_ready true (ready_p2 room) room)
  ∨ (players room = [opp; ws] ∧ theirs = ready_p1 room
     ∧ marked = set_ready (ready_p1 room) true room).

(** ** Scenarios

    Three sockets and a few runs of the server from start-up, used below
    as concrete instances. *)

Definition alice : conn := 0%nat.
Definition bob : conn := 1%nat.
Definition carol : conn := 2%nat.

(** [{ type, displayName, roomId }] with some payload *)
Definition message (type name room : string) : Data :=
  {| msg_type := JStr type; msg_displayName := JStr name;
     msg_roomId := JStr room; msg_reqId := JUndef; msg_body := "v=0 ..." |}.

(** Alice opens the private room ROOM1 and Bob joins it. *)
Definition private_pair : State :=
  run [Message HCreatePrivate alice (message "createPrivate" "Alice" "ROOM1") 0 [];
       Message HJoinPrivate bob (message "joinPrivate" "Bob" "ROOM1") 10 []]
      init.

(** Alice opens the private room ROOM1 and nobody has joined yet. *)
Definition private_alone : State :=
  run [Message HCreatePrivate alice (message "createPrivate" "Alice" "ROOM1") 0 []]
      init.

(** Alice asks for a public match and waits. *)
Definition public_waiting : State :=
  run [Message HJoinPublic alice (message "joinPublic" "Alice" "") 0 []] init.

(** A value of the random source whose radix-36 text is
    ["0.4fzyo82mvyr"]; the id made from it is ["4FZYO82M"]. *)
Definition rnd0 : list nat := [4; 15; 35; 34; 24; 8; 2; 22; 31; 34; 27]%nat.

(** Alice asks for a public match twice in a row. *)
Definition public_twice : State :=
  run [Message HJoinPublic alice (message "joinPublic" "Alice" "") 0 rnd0;
       Message HJoinPublic alice (message "joinPublic" "Alice" "") 5 rnd0]
      init.

(** Alice and Bob share ROOM1, and Bob's socket has begun to close:
    its ready state is CLOSING and the close event has yet to come. *)
Definition private_pair_closing : State :=
  step (Transport bob CLOSING) private_pair.

(** Alice and Bob share ROOM1, then Alice opens the room ROOM2 as well. *)
Definition two_rooms : State :=
  step (Message HCreatePrivate alice (message "createPrivate" "Alice" "ROOM2") 20 [])
       private_pair.

(** A display name that cannot be written into a log line: an object
    whose conversion to a string throws, as the one parsed from the text
    [{ toString: 0 }] with its member name quoted. *)
Definition unprintable : jsval := JObj 0 false.

(** [{ type, displayName, roomId }] with that object for display name *)
Definition message_unprintable (type room : string) : Data :=
  {| msg_type := JStr type; msg_displayName := unprintable;
     msg_roomId := JStr room; msg_reqId := JUndef; msg_body := "v=0 ..." |}.

(** ** More on the reachable states and on the inputs *)

(** Every room sits under a string, and a room that is not private
    holds two players. *)
Definition Shape (st : State) : Prop :=
  ∀ k r, rooms st !! k = Some r →
    (∃ s, k = JStr s) ∧ (isPrivate r = false → length (players r) = 2%nat).

Definition is_connection (i : Input) : bool :=
  match i with Connection _ => true | _ => false end.

Definition is_transport (i : Input) : bool :=
  match i with Transport _ _ => true | _ => false end.

Definition is_rematch (i : Input) : bool :=
  match i with Message HReadyForNewGame _ _ _ _ => true | _ => false end.

(** The socket [ws] sends one rematch request after the other, each
    with its own message and its own value of the random source. *)
Definition askAgain (ws : conn) (calls : list (list nat * Data)) (st : State) : State :=
  foldl (fun acc call => gameActions.handleNewGameRequest call.1 ws call.2 acc) st calls.

(** What no handler touches: the count of connections and the ready
    state of the sockets. *)
Definition same_env (st st' : State) : Prop :=
  totalPlayersJoined st' = totalPlayersJoined st
  ∧ ∀ p, readyState (sockets st' p) = readyState (sockets st p).

(** The flags of the rematch handshake at rest: never both set, and
    none set in a room that has not two players. *)
Definition flags_ok (r : Room) : Prop :=
  ready_p1 r && ready_p2 r = false
  ∧ (length (players r) ≠ 2%nat → ready_p1 r = false ∧ ready_p2 r = false).

Definition Flags (st : State) : Prop :=
  ∀ k r, rooms st !! k = Some r → flags_ok r.

(** * Properties *)

(** ** The clean-up sweep *)

Section sweep.
Context (st : State) (now : Z).

Lemma sweep_keeps (l : list (jsval * Room)) (acc : gmap jsval Room) (k : jsval) :
  (∀ r, (k, r) ∈ l → stale st now r = false) →
  foldr (sweep_entry st now) acc l !! k = acc !! k.
Proof.
  induction l as [|[k' r'] l IH]; intros Hfresh; [done|].
  cbn [foldr]. unfold sweep_entry at 1. cbn [fst snd].
  assert (Htl : ∀ r, (k, r) ∈ l → stale st now r = false).
  { intros r Hr. apply Hfresh. by right. }
  destruct (stale st now r') eqn:Hst; [|by apply IH].
  rewrite lookup_delete_ne; [by apply IH|].
  intros ->. specialize (Hfresh r' ltac:(left)). congruence.
Qed.

Lemma sweep_drops (l : list (jsval * Room)) (acc : gmap jsval Room)
    (k : jsval) (r : Room) :
  (k, r) ∈ l → stale st now r = true →
  foldr (sweep_entry st now) acc l !! k = None.
Proof.
  induction l as [|[k' r'] l IH]; intros Hin Hst.
  - by apply elem_of_nil in Hin.
  - cbn [foldr]. unfold sweep_entry at 1. cbn [fst snd].
    apply elem_of_cons in Hin as [[= <- <-]|Hin].
    + by rewrite Hst, lookup_delete_eq.
    + destruct (stale st now r'); [|by apply IH].
      rewrite lookup_delete. case_decide; [done|by apply IH].
Qed.

Lemma cleanup_lookup (k : jsval) (r : Room) :
  rooms st !! k = Some r →
  rooms (cleanup now st) !! k = if stale st now r then None else Some r.
Proof.
  intros Hk. unfold cleanup. cbn [rooms set_rooms].
  destruct (stale st now r) eqn:Hst.
  - apply (sweep_drops _ _ k r); [|done]. by apply elem_of_map_to_list.
  - rewrite <- Hk. apply sweep_keeps. intros r' Hr'.
    apply elem_of_map_to_list in Hr'. congruence.
Qed.

Lemma cleanup_adds_nothing (k : jsval) :
  rooms st !! k = None → rooms (cleanup now st) !! k = None.
Proof.
  intros Hk. unfold cleanup. cbn [rooms set_rooms].
  rewrite <- Hk. apply sweep_keeps. intros r Hr.
  apply elem_of_map_to_list in Hr. congruence.
Qed.

End sweep.

Lemma hasActivePlayer_true (st : State) (room : Room) :
  hasActivePlayer st room = true ↔ ∃ p, p ∈ players room ∧ live st p = true.
Proof.
  unfold hasActivePlayer. rewrite existsb_exists.
  split; intros (p & Hp & Hl); exists p; split; try done;
    by apply list_elem_of_In.
Qed.

Lemma hasActivePlayer_false (st : State) (room : Room) :
  hasActivePlayer st room = false ↔ ∀ p, p ∈ players room → live st p = false.
Proof.
  split.
  - intros Hno p Hp. destruct (live st p) eqn:Hl; [|done].
    assert (hasActivePlayer st room = true) by (apply hasActivePlayer_true; eauto).
    congruence.
  - intros Hall. destruct (hasActivePlayer st room) eqn:Hact; [|done].
    apply hasActivePlayer_true in Hact as (p & Hp & Hl).
    rewrite (Hall p Hp) in Hl. done.
Qed.

(** C7. One sweep of the reaper, for a room of the table: the room is
    removed exactly when none of its players has an open socket or when
    [now - createdAt] is more than 24 hours (86400000 ms); a room with an
    open player that is not older than that is left as it was.  The sweep
    touches nothing but the room table. *)
Theorem cleanup_removes_exactly_stale (st : State) (now : Z) (k : jsval) (room : Room) :
  rooms st !! k = Some room →
  (rooms (cleanup now st) !! k = None ↔
     (∀ p, p ∈ players room → live st p = false) ∨ 86400000 < now - createdAt room)
  ∧ ((∃ p, p ∈ players room ∧ live st p = true) →
     now - createdAt room ≤ 86400000 →
     rooms (cleanup now st) !! k = Some room)
  ∧ waitingPlayers (cleanup now st) = waitingPlayers st
  ∧ sockets (cleanup now st) = sockets st
  ∧ sent (cleanup now st) = sent st
  ∧ totalGamesPlayed (cleanup now st) = totalGamesPlayed st.
Proof.
  intros Hk. rewrite (cleanup_lookup st now k room Hk).
  change 86400000 with maxAge.
  split; [|split; [|done]].
  - unfold stale. rewrite <- hasActivePlayer_false.
    destruct (hasActivePlayer st room); cbn [negb orb].
    + destruct (Z.ltb_spec maxAge (now - createdAt room)); split; try done.
      * by right.
      * intros [?|?]; [done|lia].
    + split; [by left|done].
  - intros Hact Hage. apply hasActivePlayer_true in Hact.
    unfold stale. rewrite Hact. cbn [negb orb].
    destruct (Z.ltb_spec maxAge (now - createdAt room)); [lia|done].
Qed.

Lemma cleanup_removes_exactly_stale_witness :
  let room := {| players := [alice; bob]; isPrivate := true; createdAt := 0;
                 ready_p1 := false; ready_p2 := false |} in
  rooms private_pair !! JStr "ROOM1" = Some room
  ∧ rooms (cleanup 60000 private_pair) !! JStr "ROOM1" = Some room.
Proof.
  intros room.
  assert (Hroom : rooms private_pair !! JStr "ROOM1" = Some room)
    by (vm_compute; reflexivity).
  split; [exact Hroom|].
  destruct (cleanup_removes_exactly_stale private_pair 60000 _ _ Hroom)
    as (_ & Hkeep & _).
  apply Hkeep.
  - exists alice. split; [apply list_elem_of_here|vm_compute; reflexivity].
  - cbn. lia.
Defined.

(** ** What the helpers leave alone *)

#[local] Arguments Nat.leb : simpl never.
#[local] Arguments Nat.eqb : simpl never.

Lemma rooms_update_socket ws f st : rooms (update_socket ws f st) = rooms st.
Proof. reflexivity. Qed.
Lemma waitingPlayers_update_socket ws f st :
  waitingPlayers (update_socket ws f st) = waitingPlayers st.
Proof. reflexivity. Qed.
Lemma sent_update_socket ws f st : sent (update_socket ws f st) = sent st.
Proof. reflexivity. Qed.
Lemma totalGamesPlayed_update_socket ws f st :
  totalGamesPlayed (update_socket ws f st) = totalGamesPlayed st.
Proof. reflexivity. Qed.

Lemma sockets_update_socket_eq ws f st :
  sockets (update_socket ws f st) ws = f (sockets st ws).
Proof. unfold update_socket. cbn [sockets]. by rewrite decide_True. Qed.

Lemma sockets_update_socket_ne ws f st p :
  p ≠ ws → sockets (update_socket ws f st) p = sockets st p.
Proof. intros Hp. unfold update_socket. cbn [sockets]. by rewrite decide_False. Qed.

Lemma live_update_socket (ws : conn) (f : Socket -> Socket) (st : State) (p : conn) :
  (∀ s, readyState (f s) = readyState s) →
  live (update_socket ws f st) p = live st p.
Proof.
  intros Hf. unfold live, is_open, update_socket. cbn [sockets].
  case_decide; [by rewrite Hf|done].
Qed.

Lemma live_set_roomId ws v st p : live (update_socket ws (set_roomId v) st) p = live st p.
Proof. by apply live_update_socket. Qed.
Lemma live_set_displayName ws v st p :
  live (update_socket ws (set_displayName v) st) p = live st p.
Proof. by apply live_update_socket. Qed.
Lemma live_rename ws (g : Socket -> jsval) st p :
  live (update_socket ws (fun s => set_displayName (g s) s) st) p = live st p.
Proof. by apply live_update_socket. Qed.
Lemma live_set_lastNewGameReqId ws v st p :
  live (update_socket ws (set_lastNewGameReqId v) st) p = live st p.
Proof. by apply live_update_socket. Qed.
Lemma live_set_rooms m st p : live (set_rooms m st) p = live st p.
Proof. reflexivity. Qed.
Lemma live_set_waitingPlayers q st p : live (set_waitingPlayers q st) p = live st p.
Proof. reflexivity. Qed.
Lemma live_set_sent l st p : live (set_sent l st) p = live st p.
Proof. reflexivity. Qed.
Lemma live_set_totalGamesPlayed n st p : live (set_totalGamesPlayed n st) p = live st p.
Proof. reflexivity. Qed.
Lemma live_send ws data st p : live (utils.send ws data st) p = live st p.
Proof. reflexivity. Qed.
Lemma live_announceTo k ps i q st p : live (announceTo k ps i q st) p = live st p.
Proof. reflexivity. Qed.

Lemma stringifies_js_or (v : jsval) (s : string) :
  stringifies (js_or v (JStr s)) = stringifies v.
Proof. unfold js_or. by destruct (truthy v) eqn:Hv; [|destruct v]. Qed.

Lemma printable_update_socket (ws : conn) (f : Socket -> Socket) (st : State) (p : conn) :
  (∀ s, stringifies (displayName (f s)) = stringifies (displayName s)) →
  printable (update_socket ws f st) p = printable st p.
Proof.
  intros Hf. unfold printable, update_socket. cbn [sockets].
  case_decide; [by rewrite Hf|done].
Qed.

Lemma printable_set_roomId ws v st p :
  printable (update_socket ws (set_roomId v) st) p = printable st p.
Proof. by apply printable_update_socket. Qed.
Lemma printable_rename ws (d : string) st p :
  printable (update_socket ws
    (fun s => set_displayName (js_or (displayName s) (JStr d)) s) st) p
  = printable st p.
Proof.
  apply printable_update_socket. intros s. cbn [set_displayName displayName].
  apply stringifies_js_or.
Qed.
Lemma printable_set_rooms m st p : printable (set_rooms m st) p = printable st p.
Proof. reflexivity. Qed.
Lemma printable_set_waitingPlayers q st p :
  printable (set_waitingPlayers q st) p = printable st p.
Proof. reflexivity. Qed.
Lemma printable_send ws data st p : printable (utils.send ws data st) p = printable st p.
Proof. reflexivity. Qed.

Lemma printable_nameSocket_eq (ws : conn) (data : Data) (st : State) :
  printable (handlers.nameSocket ws data st) ws = stringifies (msg_displayName data).
Proof.
  unfold printable, handlers.nameSocket, update_socket. cbn [sockets].
  rewrite decide_True by done. cbn [set_displayName displayName].
  apply stringifies_js_or.
Qed.


Lemma printable_ext (st st' : State) (p : conn) :
  sockets st' = sockets st → printable st' p = printable st p.
Proof. unfold printable. by intros ->. Qed.

Create Rewrite HintDb frame.
#[local] Hint Rewrite rooms_update_socket waitingPlayers_update_socket
  sent_update_socket totalGamesPlayed_update_socket
  live_set_roomId live_set_displayName live_rename live_set_lastNewGameReqId
  live_set_rooms live_set_waitingPlayers live_set_sent live_set_totalGamesPlayed
  live_send live_announceTo
  printable_set_roomId printable_rename printable_set_rooms
  printable_set_waitingPlayers printable_send : frame.

Lemma live_ext (st st' : State) (p : conn) :
  sockets st' = sockets st → live st' p = live st p.
Proof. unfold live. by intros ->. Qed.

Lemma live_nameSocket (ws : conn) (data : Data) (st : State) (p : conn) :
  live (handlers.nameSocket ws data st) p = live st p.
Proof. by apply live_update_socket. Qed.

#[local] Opaque update_socket live printable.

(** Unfold the record updates, push the projections through them, and
    read back the room that was just written. *)
Ltac frame_simpl :=
  repeat progress (simpl; autorewrite with frame; rewrite ?lookup_insert_eq).

(** Read a socket back through the assignments made to it and to others. *)
Ltac sockets_simpl :=
  repeat first
    [ rewrite sockets_update_socket_eq
    | rewrite sockets_update_socket_ne by done
    | progress cbn [sockets set_rooms set_waitingPlayers set_sent
                    set_totalGamesPlayed utils.send
                    readyState displayName roomId lastNewGameReqId
                    set_readyState set_displayName set_roomId
                    set_lastNewGameReqId] ].



Lemma opponentName_alone (a : conn) (st : State) :
  opponentName [a; a] a st = JStr "Opponent".
Proof.
  unfold opponentName. cbn [find_other List.find].
  by rewrite (bool_decide_eq_true_2 (a = a)).
Qed.

Lemma announceFrom_frame (roomId : jsval) (ps todo : list conn) (index : nat) (st : State) :
  rooms (announceFrom roomId ps index todo st) = rooms st
  ∧ waitingPlayers (announceFrom roomId ps index todo st) = waitingPlayers st
  ∧ sockets (announceFrom roomId ps index todo st) = sockets st
  ∧ totalGamesPlayed (announceFrom roomId ps index todo st) = totalGamesPlayed st.
Proof.
  revert index st. induction todo as [|p todo IH]; intros index st; [done|].
  cbn [announceFrom]. destruct (IH (S index) (announceTo roomId ps index p st))
    as (-> & -> & -> & ->). done.
Qed.

Lemma broadcastToRoom_frame (roomId : jsval) (data : Outbound)
    (excludeWs : option conn) (st : State) :
  rooms (utils.broadcastToRoom roomId data excludeWs st) = rooms st
  ∧ waitingPlayers (utils.broadcastToRoom roomId data excludeWs st) = waitingPlayers st
  ∧ sockets (utils.broadcastToRoom roomId data excludeWs st) = sockets st
  ∧ totalGamesPlayed (utils.broadcastToRoom roomId data excludeWs st) = totalGamesPlayed st.
Proof.
  unfold utils.broadcastToRoom. destruct (rooms st !! roomId) as [room|]; [|done].
  generalize (players room). intros l. revert st.
  induction l as [|p l IH]; intros st; [done|].
  cbn [foldl]. case_decide; [apply IH|].
  destruct (IH (utils.send p data st)) as (-> & -> & -> & ->). done.
Qed.

Lemma clear_requests_frame (l : list conn) (st : State) :
  let st' := foldl (fun acc p => update_socket p (set_lastNewGameReqId JNull) acc) st l in
  rooms st' = rooms st ∧ waitingPlayers st' = waitingPlayers st
  ∧ sent st' = sent st ∧ totalGamesPlayed st' = totalGamesPlayed st.
Proof.
  revert st. induction l as [|p l IH]; intros st; [done|].
  cbn [foldl]. cbn zeta in IH.
  destruct (IH (update_socket p (set_lastNewGameReqId JNull) st)) as (-> & -> & -> & ->).
  done.
Qed.

(** ** Public matchmaking, case by case *)

Lemma joinPublicQueue_waits (rnd : list nat) (now : Z) (ws : conn) (st : State) :
  filter (fun p => live st p) (waitingPlayers st) = [] →
  matchmaking.joinPublicQueue rnd now ws st
  = Returns () (utils.send ws Waiting (set_waitingPlayers [ws] st)).
Proof.
  intros Hq. unfold matchmaking.joinPublicQueue.
  cbn [waitingPlayers set_waitingPlayers]. rewrite Hq. done.
Qed.

Lemma joinPublicQueue_pairs (rnd : list nat) (now : Z) (ws : conn) (st : State)
    (opponent : conn) (rest : list conn) :
  filter (fun p => live st p) (waitingPlayers st) = opponent :: rest →
  let roomId := JStr (utils.generateRoomId rnd) in
  let st' := matchmaking.joinPublicQueue rnd now ws st in
  rooms st' = <[roomId := {| players := [opponent; ws]; isPrivate := false;
                             createdAt := now; ready_p1 := false;
                             ready_p2 := false |}]> (rooms st)
  ∧ waitingPlayers st' = rest
  ∧ totalGamesPlayed st' = totalGamesPlayed st
  ∧ if printable st opponent && printable st ws then
      returned st' = Some ()
      ∧ ∃ name1 name2,
          sent st' = sent st ++
            [ {| target := opponent; payload := MatchFound roomId true name1;
                 on_wire := live st opponent |};
              {| target := ws; payload := MatchFound roomId false name2;
                 on_wire := live st ws |};
              {| target := opponent; payload := MatchFound roomId true name1;
                 on_wire := live st opponent |};
              {| target := ws; payload := MatchFound roomId false name2;
                 on_wire := live st ws |} ]
    else
      returned st' = None ∧ sent st' = sent st.
Proof.
  intros Hq roomId st'. subst st'. unfold matchmaking.joinPublicQueue.
  cbn [waitingPlayers set_waitingPlayers]. rewrite Hq.
  fold roomId.
  unfold rooms.join, rooms.create, announceMatch.
  frame_simpl. rewrite andb_true_r.
  destruct (printable st opponent && printable st ws);
    frame_simpl; rewrite insert_insert_eq.
  - split_and!; [done..|].
    eexists _, _. rewrite <- !app_assoc. reflexivity.
  - done.
Qed.

(** ** The invariant of the reachable states *)

Lemma rooms_ok_insert (m : gmap jsval Room) (k : jsval) (r : Room) :
  rooms_ok m → room_ok k r → rooms_ok (<[k:=r]> m).
Proof.
  intros Hm Hr k' r'. rewrite lookup_insert. case_decide; [|by apply Hm].
  intros [= <-]. by subst.
Qed.

Lemma rooms_ok_delete (m : gmap jsval Room) (k : jsval) :
  rooms_ok m → rooms_ok (delete k m).
Proof.
  intros Hm k' r'. rewrite lookup_delete. case_decide; [done|by apply Hm].
Qed.

Lemma room_ok_set_ready (k : jsval) (r : Room) (p1 p2 : bool) :
  room_ok k r → room_ok k (set_ready p1 p2 r).
Proof. done. Qed.

Lemma Inv_frame (st st' : State) :
  waitingPlayers st' = waitingPlayers st → rooms st' = rooms st →
  Inv st → Inv st'.
Proof. unfold Inv. by intros -> ->. Qed.

Lemma joinPublicQueue_Inv rnd now ws st :
  Inv st → Inv (matchmaking.joinPublicQueue rnd now ws st).
Proof.
  intros [Hq Hrooms].
  destruct (filter (fun p => live st p) (waitingPlayers st)) as [|opponent rest] eqn:Hf.
  - rewrite joinPublicQueue_waits by done. split; [simpl; lia|done].
  - destruct (joinPublicQueue_pairs rnd now ws st opponent rest Hf)
      as (Hr & Hw & _). split.
    + rewrite Hw. pose proof (length_filter (fun p => live st p) (waitingPlayers st)) as Hlen.
      rewrite Hf in Hlen. simpl in Hlen. lia.
    + rewrite Hr. apply rooms_ok_insert; [done|]. by right.
Qed.

(** *** The handlers, case by case *)

Lemma forallb_printable_ext (st st' : State) (l : list conn) :
  sockets st' = sockets st →
  forallb (printable st') l = forallb (printable st) l.
Proof.
  intros Hs. induction l as [|p l IH]; [done|].
  cbn [forallb]. by rewrite IH, (printable_ext st st' p Hs).
Qed.

Lemma forallb_printable_joined (roomId : jsval) (player : conn)
    (m : gmap jsval Room) (st : State) (l : list conn) :
  forallb (printable (update_socket player (set_roomId roomId) (set_rooms m st))) l
  = forallb (printable st) l.
Proof.
  induction l as [|p l IH]; [done|].
  cbn [forallb]. rewrite IH. by autorewrite with frame.
Qed.

Lemma isValidRoomId_stringifies (v : jsval) :
  utils.isValidRoomId v = true → stringifies v = true.
Proof. by destruct v. Qed.

(** A player is seated whether or not the log line of [rooms.join]
    throws; only the announcement depends on it. *)
Lemma rooms_join_appends (roomId : jsval) (player : conn) (st : State) (room : Room) :
  rooms st !! roomId = Some room → (length (players room) < 2)%nat →
  stringifies roomId && forallb (printable st) (players room ++ [player]) = true →
  rooms.join roomId player st
  = Returns true
      (announceMatch roomId (players room ++ [player])
         (update_socket player (set_roomId roomId)
            (set_rooms (<[roomId := set_players (players room ++ [player]) room]> (rooms st))
               st))).
Proof.
  intros Hroom Hfree Hlog. unfold rooms.join. rewrite Hroom.
  destruct (Nat.leb_spec 2 (length (players room))); [lia|].
  cbn [players set_players]. by rewrite forallb_printable_joined, Hlog.
Qed.

Lemma rooms_join_throws (roomId : jsval) (player : conn) (st : State) (room : Room) :
  rooms st !! roomId = Some room → (length (players room) < 2)%nat →
  stringifies roomId && forallb (printable st) (players room ++ [player]) = false →
  rooms.join roomId player st
  = Throws
      (update_socket player (set_roomId roomId)
         (set_rooms (<[roomId := set_players (players room ++ [player]) room]> (rooms st))
            st)).
Proof.
  intros Hroom Hfree Hlog. unfold rooms.join. rewrite Hroom.
  destruct (Nat.leb_spec 2 (length (players room))); [lia|].
  cbn [players set_players]. by rewrite forallb_printable_joined, Hlog.
Qed.

Lemma createPrivate_invalid now ws data st :
  utils.isValidRoomId (msg_roomId data) = false →
  handlers.createPrivate now ws data st
  = utils.send ws (Error_ "Invalid room ID format") (handlers.nameSocket ws data st).
Proof. intros Hv. unfold handlers.createPrivate. by rewrite Hv. Qed.

Lemma createPrivate_taken now ws data st :
  utils.isValidRoomId (msg_roomId data) = true →
  is_Some (rooms st !! msg_roomId data) →
  handlers.createPrivate now ws data st
  = utils.send ws (Error_ "Room ID already exists") (handlers.nameSocket ws data st).
Proof.
  intros Hv Hsome. unfold handlers.createPrivate. rewrite Hv. cbn [negb].
  unfold handlers.nameSocket. rewrite rooms_update_socket.
  by rewrite bool_decide_eq_true_2.
Qed.

Lemma createPrivate_creates now ws data st :
  utils.isValidRoomId (msg_roomId data) = true →
  rooms st !! msg_roomId data = None →
  handlers.createPrivate now ws data st
  = utils.send ws Waiting
      (rooms.create now (msg_roomId data) ws true (handlers.nameSocket ws data st)).
Proof.
  intros Hv Hnone. unfold handlers.createPrivate. rewrite Hv. cbn [negb].
  unfold handlers.nameSocket. rewrite rooms_update_socket.
  rewrite bool_decide_eq_false_2; [done|]. rewrite Hnone. by intros [? ?].
Qed.

Lemma rooms_join_seats (roomId : jsval) (player : conn) (st : State) (room : Room) :
  rooms st !! roomId = Some room → (length (players room) < 2)%nat →
  let st' := rooms.join roomId player st in
  rooms st' = <[roomId := set_players (players room ++ [player]) room]> (rooms st)
  ∧ waitingPlayers st' = waitingPlayers st
  ∧ sockets st' = sockets (update_socket player (set_roomId roomId) st)
  ∧ totalGamesPlayed st' = totalGamesPlayed st.
Proof.
  intros Hroom Hfree st'. subst st'.
  destruct (stringifies roomId && forallb (printable st) (players room ++ [player]))
    eqn:Hlog.
  - rewrite (rooms_join_appends _ _ _ room) by done. cbn [state].
    unfold announceMatch.
    match goal with |- context [announceFrom ?k ?ps ?i ?todo ?s] =>
      destruct (announceFrom_frame k ps todo i s) as (-> & -> & -> & ->) end.
    done.
  - by rewrite (rooms_join_throws _ _ _ room).
Qed.

Lemma joinPrivate_invalid ws data st :
  utils.isValidRoomId (msg_roomId data) = false →
  handlers.joinPrivate ws data st
  = Returns ()
      (utils.send ws (Error_ "Invalid room ID format") (handlers.nameSocket ws data st)).
Proof. intros Hv. unfold handlers.joinPrivate. by rewrite Hv. Qed.

Lemma joinPrivate_missing ws data st :
  utils.isValidRoomId (msg_roomId data) = true →
  rooms st !! msg_roomId data = None →
  handlers.joinPrivate ws data st
  = Returns ()
      (utils.send ws (RoomInvalid (msg_roomId data)) (handlers.nameSocket ws data st)).
Proof.
  intros Hv Hnone. unfold handlers.joinPrivate. rewrite Hv. cbn [negb].
  unfold handlers.nameSocket. rewrite rooms_update_socket. by rewrite Hnone.
Qed.

Lemma joinPrivate_full ws data st room :
  utils.isValidRoomId (msg_roomId data) = true →
  rooms st !! msg_roomId data = Some room → (2 ≤ length (players room))%nat →
  handlers.joinPrivate ws data st
  = Returns ()
      (utils.send ws (RoomFull (msg_roomId data)) (handlers.nameSocket ws data st)).
Proof.
  intros Hv Hroom Hfull. unfold handlers.joinPrivate. rewrite Hv. cbn [negb].
  unfold handlers.nameSocket. rewrite rooms_update_socket, Hroom.
  destruct (Nat.leb_spec 2 (length (players room))); [done|lia].
Qed.

Lemma joinPrivate_joins ws data st room :
  utils.isValidRoomId (msg_roomId data) = true →
  rooms st !! msg_roomId data = Some room → (length (players room) < 2)%nat →
  forallb (printable (handlers.nameSocket ws data st)) (players room ++ [ws]) = true →
  handlers.joinPrivate ws data st
  = Returns ()
      (announceMatch (msg_roomId data) (players room ++ [ws])
         (update_socket ws (set_roomId (msg_roomId data))
            (set_rooms
               (<[msg_roomId data := set_players (players room ++ [ws]) room]> (rooms st))
               (handlers.nameSocket ws data st)))).
Proof.
  intros Hv Hroom Hfree Hnames. unfold handlers.joinPrivate. rewrite Hv. cbn [negb].
  unfold handlers.nameSocket at 1. rewrite rooms_update_socket, Hroom.
  destruct (Nat.leb_spec 2 (length (players room))); [lia|].
  rewrite (rooms_join_appends _ _ _ room); [done| |done|].
  - unfold handlers.nameSocket. by rewrite rooms_update_socket.
  - by rewrite Hnames, (isValidRoomId_stringifies _ Hv).
Qed.

Lemma joinPrivate_throws ws data st room :
  utils.isValidRoomId (msg_roomId data) = true →
  rooms st !! msg_roomId data = Some room → (length (players room) < 2)%nat →
  forallb (printable (handlers.nameSocket ws data st)) (players room ++ [ws]) = false →
  handlers.joinPrivate ws data st
  = Throws
      (update_socket ws (set_roomId (msg_roomId data))
         (set_rooms
            (<[msg_roomId data := set_players (players room ++ [ws]) room]> (rooms st))
            (handlers.nameSocket ws data st))).
Proof.
  intros Hv Hroom Hfree Hnames. unfold handlers.joinPrivate. rewrite Hv. cbn [negb].
  unfold handlers.nameSocket at 1. rewrite rooms_update_socket, Hroom.
  destruct (Nat.leb_spec 2 (length (players room))); [lia|].
  rewrite (rooms_join_throws _ _ _ room); [done| |done|].
  - unfold handlers.nameSocket. by rewrite rooms_update_socket.
  - by rewrite Hnames, (isValidRoomId_stringifies _ Hv).
Qed.

(** What a join into a room with a free seat leaves behind, whichever
    way it ends. *)
Lemma joinPrivate_seats ws data st room :
  utils.isValidRoomId (msg_roomId data) = true →
  rooms st !! msg_roomId data = Some room → (length (players room) < 2)%nat →
  let st' := handlers.joinPrivate ws data st in
  rooms st' = <[msg_roomId data := set_players (players room ++ [ws]) room]> (rooms st)
  ∧ waitingPlayers st' = waitingPlayers st
  ∧ sockets st'
    = sockets (update_socket ws (set_roomId (msg_roomId data))
                 (handlers.nameSocket ws data st))
  ∧ totalGamesPlayed st' = totalGamesPlayed st.
Proof.
  intros Hv Hroom Hfree st'. subst st'.
  destruct (forallb (printable (handlers.nameSocket ws data st)) (players room ++ [ws]))
    eqn:Hnames.
  - rewrite (joinPrivate_joins _ _ _ room) by done. cbn [state].
    unfold announceMatch.
    match goal with |- context [announceFrom ?k ?ps ?i ?todo ?s] =>
      destruct (announceFrom_frame k ps todo i s) as (-> & -> & -> & ->) end.
    done.
  - by rewrite (joinPrivate_throws _ _ _ room).
Qed.

Lemma createPrivate_Inv now ws data st :
  Inv st → Inv (handlers.createPrivate now ws data st).
Proof.
  intros HI.
  destruct (utils.isValidRoomId (msg_roomId data)) eqn:Hvalid.
  - destruct (rooms st !! msg_roomId data) as [room|] eqn:Hroom.
    + rewrite createPrivate_taken by done. revert HI. by apply Inv_frame.
    + rewrite createPrivate_creates by done. destruct HI as [Hq Hrooms].
      split; [done|]. cbn. apply rooms_ok_insert; [done|]. by left.
  - rewrite createPrivate_invalid by done. revert HI. by apply Inv_frame.
Qed.

Lemma joinPrivate_Inv ws data st :
  Inv st → Inv (handlers.joinPrivate ws data st).
Proof.
  intros HI.
  destruct (utils.isValidRoomId (msg_roomId data)) eqn:Hvalid.
  - destruct (rooms st !! msg_roomId data) as [room|] eqn:Hroom.
    + destruct (Nat.leb_spec 2 (length (players room))) as [Hfull|Hfree].
      * rewrite (joinPrivate_full _ _ _ room) by done. revert HI. by apply Inv_frame.
      * destruct (joinPrivate_seats ws data st room) as (Hr & Hw & _); [done..|].
        destruct HI as [Hq Hrooms].
        split; [by rewrite Hw|]. rewrite Hr.
        apply rooms_ok_insert; [done|].
        destruct (Hrooms _ _ Hroom) as [[Hone _]|Htwo]; [|lia].
        right. cbn [players set_players]. rewrite length_app, Hone. done.
    + rewrite joinPrivate_missing by done. revert HI. by apply Inv_frame.
  - rewrite joinPrivate_invalid by done. revert HI. by apply Inv_frame.
Qed.

Lemma relaySignal_frame ws data st :
  rooms (gameActions.relaySignal ws data st) = rooms st
  ∧ waitingPlayers (gameActions.relaySignal ws data st) = waitingPlayers st
  ∧ sockets (gameActions.relaySignal ws data st) = sockets st
  ∧ totalGamesPlayed (gameActions.relaySignal ws data st) = totalGamesPlayed st.
Proof.
  unfold gameActions.relaySignal.
  destruct (utils.getOpponent ws (msg_roomId data) st) as [o|]; [|done].
  by destruct (live st o).
Qed.

Lemma handleNewGameRequest_Inv rnd ws data st :
  Inv st → Inv (gameActions.handleNewGameRequest rnd ws data st).
Proof.
  intros [Hq Hrooms]. unfold gameActions.handleNewGameRequest.
  destruct (rooms st !! msg_roomId data) as [room|] eqn:Hroom; [|done].
  destruct (negb _); [done|].
  destruct (indexOf ws (players room)) as [playerIndex|]; [|done].
  set (room1 := if decide (playerIndex = 0%nat) then _ else _).
  assert (Hroom1 : room_ok (msg_roomId data) room1).
  { subst room1. case_decide; apply room_ok_set_ready; eauto. }
  destruct (ready_p1 room1 && ready_p2 room1).
  - match goal with |- Inv (foldl _ ?s ?l) =>
      destruct (clear_requests_frame l s) as (Hr & Hw & _) end.
    apply (Inv_frame _ _ Hw Hr).
    match goal with |- Inv (utils.broadcastToRoom ?k ?d ?e ?s) =>
      destruct (broadcastToRoom_frame k d e s) as (Hr' & Hw' & _) end.
    apply (Inv_frame _ _ Hw' Hr').
    split; [done|]. cbn.
    apply rooms_ok_insert; [by apply rooms_ok_insert|].
    by apply room_ok_set_ready.
  - assert (Inv (update_socket ws
              (set_lastNewGameReqId
                 (js_or (msg_reqId data) (JStr (utils.generateRoomId rnd))))
              (set_rooms (<[msg_roomId data:=room1]> (rooms st)) st))) as HI.
    { split; [done|]. cbn. by apply rooms_ok_insert. }
    destruct (utils.getOpponent _ _ _) as [o|]; [|done].
    destruct (live _ o); [|done].
    revert HI. by apply Inv_frame.
Qed.

Lemma length_delete_le {A} (i : nat) (l : list A) : (length (delete i l) ≤ length l)%nat.
Proof. apply sublist_length, sublist_delete. Qed.

Lemma removeFromQueue_Inv ws st : Inv st → Inv (matchmaking.removeFromQueue ws st).
Proof.
  intros [Hq Hrooms]. unfold matchmaking.removeFromQueue.
  destruct (indexOf ws (waitingPlayers st)) as [index|]; [|done].
  split; [|done]. cbn.
  pose proof (length_delete_le index (waitingPlayers st)). lia.
Qed.

Lemma remove_spec roomId st :
  rooms (rooms.remove roomId st) = delete roomId (rooms st)
  ∧ waitingPlayers (rooms.remove roomId st) = waitingPlayers st
  ∧ sockets (rooms.remove roomId st) = sockets st
  ∧ sent (rooms.remove roomId st) = sent st
  ∧ totalGamesPlayed (rooms.remove roomId st) = totalGamesPlayed st.
Proof.
  unfold rooms.remove. destruct (rooms st !! roomId) eqn:Hroom; [done|].
  by rewrite delete_id.
Qed.

Lemma handleDisconnect_Inv ws st : Inv st → Inv (rooms.handleDisconnect ws st).
Proof.
  intros HI. unfold rooms.handleDisconnect.
  destruct (negb _); [done|].
  destruct (rooms st !! roomId (sockets st ws)) as [room|]; [|done].
  match goal with |- Inv (rooms.remove ?k ?s) =>
    destruct (remove_spec k s) as (Hr & Hw & _);
    assert (Inv s) as [Hq Hrooms] end.
  { destruct (find_other ws (players room)) as [o|]; [|done].
    destruct (live st o); [|done]. revert HI. by apply Inv_frame. }
  split; [by rewrite Hw|]. rewrite Hr. by apply rooms_ok_delete.
Qed.

Lemma cleanup_Inv now st : Inv st → Inv (cleanup now st).
Proof.
  intros [Hq Hrooms]. split; [done|]. intros k r Hk.
  destruct (rooms st !! k) as [r0|] eqn:Hk0.
  - rewrite (cleanup_lookup st now k r0 Hk0) in Hk.
    destruct (stale st now r0); [done|]. injection Hk as <-. by apply Hrooms.
  - by rewrite (cleanup_adds_nothing st now k Hk0) in Hk.
Qed.

(** The dispatcher's answer to an exception only sends. *)
Lemma caught_frame (ws : conn) (c : Completion unit) :
  rooms (caught ws c) = rooms c
  ∧ waitingPlayers (caught ws c) = waitingPlayers c
  ∧ sockets (caught ws c) = sockets c
  ∧ totalGamesPlayed (caught ws c) = totalGamesPlayed c
  ∧ totalPlayersJoined (caught ws c) = totalPlayersJoined c.
Proof. by destruct c. Qed.

Lemma step_Inv (i : Input) (st : State) : Inv st → Inv (step i st).
Proof.
  intros HI. destruct i as [ws|h ws data now rnd|ws|now|ws r]; cbn [step].
  - revert HI. by apply Inv_frame.
  - destruct h.
    + match goal with |- Inv (caught ?w ?c) =>
        destruct (caught_frame w c) as (Hr & Hw & _) end.
      apply (Inv_frame _ _ Hw Hr).
      apply joinPublicQueue_Inv. revert HI. by apply Inv_frame.
    + by apply createPrivate_Inv.
    + match goal with |- Inv (caught ?w ?c) =>
        destruct (caught_frame w c) as (Hr & Hw & _) end.
      apply (Inv_frame _ _ Hw Hr). by apply joinPrivate_Inv.
    + destruct (relaySignal_frame ws data st) as (Hr & Hw & _).
      by apply (Inv_frame _ _ Hw Hr).
    + destruct (relaySignal_frame ws data st) as (Hr & Hw & _).
      by apply (Inv_frame _ _ Hw Hr).
    + destruct (relaySignal_frame ws data st) as (Hr & Hw & _).
      by apply (Inv_frame _ _ Hw Hr).
    + by apply handleNewGameRequest_Inv.
  - by apply handleDisconnect_Inv, removeFromQueue_Inv.
  - by apply cleanup_Inv.
  - revert HI. by apply Inv_frame.
Qed.

Lemma init_Inv : Inv init.
Proof. split; [cbn; lia|]. intros k r. cbn. by rewrite lookup_empty. Qed.

Lemma reachable_Inv (st : State) : reachable st → Inv st.
Proof. induction 1; [apply init_Inv|by apply step_Inv]. Qed.

Lemma run_snoc (inputs : list Input) (i : Input) (st : State) :
  run (inputs ++ [i]) st = step i (run inputs st).
Proof. unfold run. by rewrite foldl_app. Qed.

Lemma reachable_run (inputs : list Input) : reachable (run inputs init).
Proof.
  induction inputs as [|i inputs IH] using rev_ind; [constructor|].
  rewrite run_snoc. by constructor.
Qed.

Lemma queue_short_NoDup (l : list conn) : (length l ≤ 1)%nat → NoDup l.
Proof.
  destruct l as [|x [|y l]]; cbn; intros Hl; [| |lia].
  - constructor.
  - apply NoDup_singleton.
Qed.

(** ** C1: the matchmaking queue and the sessions it makes *)

Lemma handleDisconnect_waitingPlayers ws st :
  waitingPlayers (rooms.handleDisconnect ws st) = waitingPlayers st.
Proof.
  unfold rooms.handleDisconnect.
  destruct (negb _); [done|].
  destruct (rooms st !! roomId (sockets st ws)) as [room|]; [|done].
  match goal with |- waitingPlayers (rooms.remove ?k ?s) = _ =>
    destruct (remove_spec k s) as (_ & -> & _) end.
  destruct (find_other ws (players room)) as [o|]; [|done].
  by destruct (live st o).
Qed.

Lemma removeFromQueue_gone ws st :
  (length (waitingPlayers st) ≤ 1)%nat →
  ws ∉ waitingPlayers (matchmaking.removeFromQueue ws st).
Proof.
  unfold matchmaking.removeFromQueue.
  destruct (waitingPlayers st) as [|p [|q l]] eqn:Hq; cbn [length]; intros Hlen; [| |lia].
  - cbn. rewrite Hq. apply not_elem_of_nil.
  - cbn [indexOf]. case_decide as Hp; cbn.
    + apply not_elem_of_nil.
    + rewrite Hq. by intros ->%list_elem_of_singleton.
Qed.

(** C1, the counterexample.  A socket that asks for a public match while
    it is itself the one waiting is paired with itself: the session made
    has the same socket in both slots. *)
Lemma joinPublic_twice_pairs_with_itself :
  ∃ room, rooms public_twice !! JStr "4FZYO82M" = Some room
          ∧ players room = [alice; alice]
          ∧ ¬ NoDup (players room).
Proof.
  eexists. split; [vm_compute; reflexivity|]. split; [reflexivity|].
  cbn [players]. intros [Hnot _]%NoDup_cons. apply Hnot. by left.
Qed.

(** C1, amended.  From start-up and whatever the inputs, the queue never
    holds the same socket twice, and a socket that closes is not in it
    any more.  When [joinPublic] finds an open socket waiting, it takes
    the first one out of the queue and makes a public session with
    exactly two slots, that socket first and the arrival second; the two
    are different sockets exactly when the arrival is not the socket that
    was taken from the queue.  When none is waiting, no session is made
    and the arrival alone is queued. *)
Theorem public_queue_and_sessions :
  (∀ inputs, NoDup (waitingPlayers (run inputs init)))
  ∧ (∀ inputs ws, ws ∉ waitingPlayers (run (inputs ++ [Close ws]) init))
  ∧ (∀ rnd now ws data st opponent rest,
       filter (fun p => live st p) (waitingPlayers st) = opponent :: rest →
       let st' := handlers.joinPublic rnd now ws data st in
       ∃ room, rooms st' !! JStr (utils.generateRoomId rnd) = Some room
               ∧ players room = [opponent; ws]
               ∧ isPrivate room = false
               ∧ waitingPlayers st' = rest
               ∧ (NoDup (players room) ↔ opponent ≠ ws))
  ∧ (∀ rnd now ws data st,
       filter (fun p => live st p) (waitingPlayers st) = [] →
       let st' := handlers.joinPublic rnd now ws data st in
       rooms st' = rooms st ∧ waitingPlayers st' = [ws]).
Proof.
  split_and!.
  - intros inputs. apply queue_short_NoDup.
    by destruct (reachable_Inv _ (reachable_run inputs)).
  - intros inputs ws. rewrite run_snoc. cbn [step]. unfold onClose.
    rewrite handleDisconnect_waitingPlayers. apply removeFromQueue_gone.
    by destruct (reachable_Inv _ (reachable_run inputs)).
  - intros rnd now ws data st opponent rest Hq st'. subst st'.
    unfold handlers.joinPublic.
    destruct (joinPublicQueue_pairs rnd now ws (handlers.nameSocket ws data st)
                opponent rest) as (Hr & Hw & _).
    { rewrite <- Hq. unfold handlers.nameSocket.
      rewrite waitingPlayers_update_socket.
      apply list_filter_iff. intros p. by rewrite live_set_displayName. }
    eexists. split; [rewrite Hr; apply lookup_insert_eq|].
    split_and!; try done. cbn [players]. split.
    + intros [Hnot _]%NoDup_cons Heq. apply Hnot. subst. by left.
    + intros Hne. apply NoDup_cons. split; [|apply NoDup_singleton].
      by intros ->%list_elem_of_singleton.
  - intros rnd now ws data st Hq st'. subst st'. unfold handlers.joinPublic.
    rewrite joinPublicQueue_waits; [done|].
    rewrite <- Hq. unfold handlers.nameSocket.
    rewrite waitingPlayers_update_socket.
    apply list_filter_iff. intros p. by rewrite live_set_displayName.
Qed.

Lemma public_queue_and_sessions_witness :
  filter (fun p => live public_waiting p) (waitingPlayers public_waiting) = [alice]
  ∧ ∃ room,
      rooms (handlers.joinPublic rnd0 5 bob (message "joinPublic" "Bob" "") public_waiting)
        !! JStr (utils.generateRoomId rnd0) = Some room
      ∧ players room = [alice; bob].
Proof.
  assert (Hq : filter (fun p => live public_waiting p) (waitingPlayers public_waiting)
               = [alice]) by (vm_compute; reflexivity).
  split; [exact Hq|].
  destruct public_queue_and_sessions as (_ & _ & Hpair & _).
  destruct (Hpair rnd0 5 bob (message "joinPublic" "Bob" "") public_waiting alice [] Hq)
    as (room & Hroom & Hplayers & _).
  exists room. split; [exact Hroom|exact Hplayers].
Defined.

(** ** C2: relaying the negotiation messages *)


(** C2, the failing input.  Carol is in no room and her socket names
    none; her [offer] names ROOM1, the room of Alice and Bob.  The relay
    looks the room up by the id in the message and hands the offer to the
    first player that is not the sender: Alice receives it. *)
Theorem relaySignal_reaches_foreign_room :
  let data := message "offer" "Carol" "ROOM1" in
  (∀ k room, rooms private_pair !! k = Some room → carol ∉ players room)
  ∧ roomId (sockets private_pair carol) = JUndef
  ∧ sent (handlers.offer carol data private_pair)
    = sent private_pair ++
        [{| target := alice; payload := Relayed data; on_wire := true |}].
Proof.
  intros data. split_and!.
  - assert (rooms private_pair
            = {[ JStr "ROOM1" := {| players := [alice; bob]; isPrivate := true;
                                    createdAt := 0; ready_p1 := false;
                                    ready_p2 := false |} ]}) as ->
      by (vm_compute; reflexivity).
    intros k room [_ <-]%lookup_singleton_Some. cbn [players].
    unfold alice, bob, carol. rewrite !elem_of_cons, elem_of_nil. lia.
  - vm_compute. reflexivity.
  - vm_compute. reflexivity.
Qed.

(** ** C8: the ids the server makes up *)

Lemma length_toUpperCase (s : string) : String.length (toUpperCase s) = String.length s.
Proof. induction s as [|c s IH]; cbn; [done|by rewrite IH]. Qed.

Lemma length_substring_le (n m : nat) (s : string) :
  (String.length (String.substring n m s) ≤ m)%nat.
Proof.
  revert n m. induction s as [|c s IH]; intros [|n] [|m]; cbn; try lia.
  - specialize (IH 0%nat m). lia.
  - apply (IH n 0%nat).
  - apply (IH n (S m)).
Qed.

(** Whatever the random source gives, the id has at most 8 characters. *)
Lemma generateRoomId_length (rnd : list nat) :
  (String.length (utils.generateRoomId rnd) ≤ 8)%nat.
Proof.
  unfold utils.generateRoomId, js_substring. rewrite length_toUpperCase.
  apply (length_substring_le 2 8).
Qed.

Lemma digit36_alphanumeric (d : nat) :
  (d < 36)%nat → alphanumeric (upper_ascii (digit36 d)) = true.
Proof. intros Hd. do 36 (destruct d as [|d]; [reflexivity|]). lia. Qed.

Lemma substring_alphanumeric (m : nat) (s : string) :
  forallb (fun c => alphanumeric (upper_ascii c)) (String.list_ascii_of_string s) = true →
  forallb alphanumeric
    (String.list_ascii_of_string (toUpperCase (String.substring 0 m s))) = true.
Proof.
  revert s. induction m as [|m IH]; intros [|c s]; cbn; try done.
  intros [Hc Hs]%andb_prop. rewrite Hc. cbn. by apply IH.
Qed.

(** With digits below 36, every character of the id is in [[0-9A-Z]]. *)
Lemma generateRoomId_alphabet (rnd : list nat) :
  Forall (fun d => (d < 36)%nat) rnd →
  forallb alphanumeric (String.list_ascii_of_string (utils.generateRoomId rnd)) = true.
Proof.
  intros Hrnd. unfold utils.generateRoomId, js_substring, toString36.
  destruct rnd as [|d rnd]; [reflexivity|].
  change (String.substring 2 (10 - 2) ("0." +:+ ?s)) with (String.substring 0 8 s).
  apply substring_alphanumeric.
  rewrite String.list_ascii_of_string_of_list_ascii.
  induction Hrnd as [|d' l Hd _ IH]; [done|].
  cbn [map forallb]. by rewrite digit36_alphanumeric.
Qed.

(** C8, the failing input.  When the random source gives one half,
    whose radix-36 text is ["0.i"], the id made is ["I"]: one character,
    which the server's own [isValidRoomId] refuses.  A public session is
    opened under that id, and a rematch request without [reqId] is given
    it as request id.  When the source gives zero the id is empty. *)
Theorem generateRoomId_too_short :
  utils.generateRoomId [18%nat] = "I"
  ∧ utils.isValidRoomId (JStr (utils.generateRoomId [18%nat])) = false
  ∧ rooms (handlers.joinPublic [18%nat] 5 bob (message "joinPublic" "Bob" "")
             public_waiting) !! JStr "I"
    = Some {| players := [alice; bob]; isPrivate := false; createdAt := 5;
              ready_p1 := false; ready_p2 := false |}
  ∧ sent (handlers.readyForNewGame [18%nat] alice
            (message "readyForNewGame" "Alice" "ROOM1") private_pair)
    = sent private_pair ++
        [{| target := bob; payload := OpponentRequestedNewGame (JStr "I");
            on_wire := true |}]
  ∧ utils.generateRoomId [] = "".
Proof. split_and!; vm_compute; reflexivity. Qed.

(** ** C3: opening a private room *)

Lemma isValidRoomId_true (v : jsval) :
  utils.isValidRoomId v = true
  ↔ ∃ s, v = JStr s ∧ (4 ≤ String.length s ≤ 12)%nat.
Proof.
  split.
  - destruct v as [| | | |s|]; cbn; try done.
    intros [H1 H2]%andb_prop. exists s. split; [done|].
    apply Nat.leb_le in H1. apply Nat.leb_le in H2. lia.
  - intros (s & -> & H1 & H2). cbn.
    apply andb_true_intro. split; by apply Nat.leb_le.
Qed.

(** C3, the counterexample.  The id ["a b!"] has four characters, two of
    them outside [[A-Za-z0-9]]; it is not refused: the room is made and
    the creator is told to wait. *)
Lemma createPrivate_accepts_any_characters :
  let data := message "createPrivate" "Alice" "a b!" in
  spec_id_format (msg_roomId data) = false
  ∧ sent (handlers.createPrivate 0 alice data init)
    = [{| target := alice; payload := Waiting; on_wire := true |}]
  ∧ rooms (handlers.createPrivate 0 alice data init) !! JStr "a b!"
    = Some {| players := [alice]; isPrivate := true; createdAt := 0;
              ready_p1 := false; ready_p2 := false |}.
Proof. split_and!; vm_compute; reflexivity. Qed.

(** C3, amended.  [createPrivate] answers the creator once.  The answer
    is the error "Invalid room ID format" exactly when the id is not a
    string of 4 to 12 characters, whatever the characters are; it is the
    error "Room ID already exists" exactly when the id is such a string
    and a room has it, and then, as after the other error, the room
    table is as it was; otherwise the answer is [waiting], and a private
    room holding the creator alone has been put under the id. *)
Theorem createPrivate_spec (now : Z) (ws : conn) (data : Data) (st : State) :
  let id := msg_roomId data in
  let st' := handlers.createPrivate now ws data st in
  let well_formed := ∃ s, id = JStr s ∧ (4 ≤ String.length s ≤ 12)%nat in
  ∃ reply,
    sent st' = sent st ++ [{| target := ws; payload := reply; on_wire := live st ws |}]
    ∧ (reply = Error_ "Invalid room ID format" ↔ ¬ well_formed)
    ∧ (reply = Error_ "Room ID already exists"
       ↔ well_formed ∧ is_Some (rooms st !! id))
    ∧ (reply = Waiting ↔ well_formed ∧ rooms st !! id = None)
    ∧ (reply ≠ Waiting → rooms st' = rooms st)
    ∧ (reply = Waiting →
       rooms st' = <[id := {| players := [ws]; isPrivate := true; createdAt := now;
                              ready_p1 := false; ready_p2 := false |}]> (rooms st)
       ∧ roomId (sockets st' ws) = id)
    ∧ waitingPlayers st' = waitingPlayers st.
Proof.
  intros id st' well_formed. subst st'.
  assert (Hwf : utils.isValidRoomId id = true ↔ well_formed)
    by apply isValidRoomId_true.
  destruct (utils.isValidRoomId id) eqn:Hvalid.
  - assert (well_formed) as Hyes by (by apply Hwf).
    destruct (rooms st !! id) as [room|] eqn:Hroom.
    + rewrite createPrivate_taken by done.
      exists (Error_ "Room ID already exists").
      split_and!; try done.
      * unfold utils.send. cbn [sent set_sent]. by rewrite live_nameSocket.
      * split; [done|]. by intros [_ ?].
    + rewrite createPrivate_creates by done.
      exists Waiting. split_and!; try done.
      * unfold utils.send. cbn [sent set_sent].
        unfold rooms.create. autorewrite with frame. cbn [sent set_rooms].
        by rewrite live_nameSocket.
      * split; [done|]. intros [_ [? ?]]. done.
      * intros _. split; [done|].
        unfold rooms.create. cbn [sockets utils.send set_sent].
        by rewrite sockets_update_socket_eq.
  - assert (¬ well_formed) as Hno by (intros ?%Hwf; done).
    rewrite createPrivate_invalid by done.
    exists (Error_ "Invalid room ID format").
    split_and!; try done.
    + unfold utils.send. cbn [sent set_sent]. by rewrite live_nameSocket.
    + split; [done|]. by intros [? _].
    + split; [done|]. by intros [? _].
Qed.

(** ** C5 and C10: joining a private room *)

Lemma truthy_js_or_string (v : jsval) (s : string) :
  s ≠ "" → truthy (js_or v (JStr s)) = true.
Proof.
  intros Hs. unfold js_or. destruct (truthy v) eqn:Hv; [done|].
  cbn. by rewrite decide_False.
Qed.

Lemma js_or_truthy (a b : jsval) : truthy a = true → js_or a b = a.
Proof. unfold js_or. by intros ->. Qed.

(** C5, the counterexample.  The id ["a b!"] has four characters, two of
    them outside [[A-Za-z0-9]]; [joinPrivate] does not refuse it: Bob
    joins the room Alice opened under it, and both are told of the
    match. *)
Lemma joinPrivate_accepts_any_characters :
  let st := handlers.createPrivate 0 alice (message "createPrivate" "Alice" "a b!") init in
  let data := message "joinPrivate" "Bob" "a b!" in
  spec_id_format (msg_roomId data) = false
  ∧ sent (handlers.joinPrivate bob data st)
    = sent st ++
        [ {| target := alice; payload := MatchFound (JStr "a b!") true (JStr "Bob");
             on_wire := true |};
          {| target := bob; payload := MatchFound (JStr "a b!") false (JStr "Alice");
             on_wire := true |} ]
  ∧ players <$> rooms (handlers.joinPrivate bob data st) !! JStr "a b!"
    = Some [alice; bob].
Proof. split_and!; vm_compute; reflexivity. Qed.





(** C10, the failing input.  Alice is alone in ROOM1 and asks to join
    it, with an object for display name whose conversion to a string
    throws.  She is appended behind herself, as the claim says, but the
    join does not succeed: the log line of [rooms.join] throws before
    either announcement, and the dispatcher answers her with the error
    "Server error occurred". *)
Theorem joinPrivate_own_room_unannounced :
  let data := message_unprintable "joinPrivate" "ROOM1" in
  let st' := step (Message HJoinPrivate alice data 10 []) private_alone in
  players <$> rooms private_alone !! JStr "ROOM1" = Some [alice]
  ∧ returned (handlers.joinPrivate alice data private_alone) = None
  ∧ players <$> rooms st' !! JStr "ROOM1" = Some [alice; alice]
  ∧ sent st'
    = sent private_alone ++
        [ {| target := alice; payload := Error_ "Server error occurred";
             on_wire := true |} ].
Proof. split_and!; vm_compute; reflexivity. Qed.

(** ** C9: a public match is announced twice *)





(** C9, the failing input.  Alice waits in the queue and Bob asks for
    a public match with an object for display name whose conversion to
    a string throws.  The two are paired: Alice leaves the queue and the
    room is made with both in it.  But the log line of [rooms.join]
    throws before the first announcement and the loop of the
    matchmaking routine is not reached: no [matchFound] is sent at all,
    and the dispatcher answers Bob with the error "Server error
    occurred".  The same happens to Bob, under his plain name, when the
    object is Alice's display name. *)
Theorem joinPublicQueue_unannounced :
  let odd := message_unprintable "joinPublic" "" in
  let plain := message "joinPublic" "Bob" "" in
  let error :=
    {| target := bob; payload := Error_ "Server error occurred"; on_wire := true |} in
  let st' := step (Message HJoinPublic bob odd 5 rnd0) public_waiting in
  let odd_waiting := run [Message HJoinPublic alice odd 0 []] init in
  let st'' := step (Message HJoinPublic bob plain 5 rnd0) odd_waiting in
  waitingPlayers public_waiting = [alice]
  ∧ returned (handlers.joinPublic rnd0 5 bob odd public_waiting) = None
  ∧ waitingPlayers st' = []
  ∧ players <$> rooms st' !! JStr "4FZYO82M" = Some [alice; bob]
  ∧ sent st' = sent public_waiting ++ [error]
  ∧ waitingPlayers odd_waiting = [alice]
  ∧ waitingPlayers st'' = []
  ∧ players <$> rooms st'' !! JStr "4FZYO82M" = Some [alice; bob]
  ∧ sent st'' = sent odd_waiting ++ [error].
Proof. split_and!; vm_compute; reflexivity. Qed.

(** ** C6: a player disconnects *)

Lemma removeFromQueue_frame ws st :
  rooms (matchmaking.removeFromQueue ws st) = rooms st
  ∧ sockets (matchmaking.removeFromQueue ws st) = sockets st
  ∧ sent (matchmaking.removeFromQueue ws st) = sent st
  ∧ totalGamesPlayed (matchmaking.removeFromQueue ws st) = totalGamesPlayed st.
Proof.
  unfold matchmaking.removeFromQueue.
  by destruct (indexOf ws (waitingPlayers st)).
Qed.

Lemma find_other_pair (ws other : conn) (l : list conn) :
  l = [ws; other] ∨ l = [other; ws] → ws ≠ other →
  find_other ws l = Some other.
Proof.
  intros [-> | ->] Hne; cbn.
  - rewrite bool_decide_eq_true_2 by done. cbn. by rewrite bool_decide_eq_false_2.
  - by rewrite bool_decide_eq_false_2.
Qed.

(** Once no room has the id, the three operations that name it do
    nothing to the room table: the relay and the rematch request leave
    the whole state as it is, and [joinPrivate] answers the sender
    [roomInvalid], or the format error when the id is malformed. *)
Lemma room_gone (id : jsval) (st : State) :
  rooms st !! id = None →
  (∀ c data, msg_roomId data = id → gameActions.relaySignal c data st = st)
  ∧ (∀ rnd c data, msg_roomId data = id →
       gameActions.handleNewGameRequest rnd c data st = st)
  ∧ (∀ c data, msg_roomId data = id →
       ∃ reply,
         (reply = RoomInvalid id ∨ reply = Error_ "Invalid room ID format")
         ∧ sent (handlers.joinPrivate c data st)
           = sent st ++ [{| target := c; payload := reply; on_wire := live st c |}]
         ∧ rooms (handlers.joinPrivate c data st) = rooms st).
Proof.
  intros Hgone. split_and!.
  - intros c data <-. unfold gameActions.relaySignal, utils.getOpponent.
    by rewrite Hgone.
  - intros rnd c data <-. unfold gameActions.handleNewGameRequest.
    by rewrite Hgone.
  - intros c data <-.
    destruct (utils.isValidRoomId (msg_roomId data)) eqn:Hvalid.
    + rewrite joinPrivate_missing by done. eexists. split; [by left|].
      unfold utils.send. cbn [sent set_sent rooms]. by rewrite live_nameSocket.
    + rewrite joinPrivate_invalid by done. eexists. split; [by right|].
      unfold utils.send. cbn [sent set_sent rooms]. by rewrite live_nameSocket.
Qed.

(** C6, the counterexample.  Alice shares ROOM1 with Bob and has
    opened ROOM2 since, so that her socket names ROOM2.  When her socket
    closes, ROOM2 is removed; Bob, whose socket is open, is sent nothing,
    and ROOM1 stays in the table with both of them in it. *)
Lemma onClose_forgets_older_room :
  let room1 := {| players := [alice; bob]; isPrivate := true; createdAt := 0;
                  ready_p1 := false; ready_p2 := false |} in
  let closed := step (Transport alice CLOSED) two_rooms in
  rooms closed !! JStr "ROOM1" = Some room1
  ∧ live closed bob = true
  ∧ sent (step (Close alice) closed) = sent closed
  ∧ rooms (step (Close alice) closed) !! JStr "ROOM1" = Some room1.
Proof. split_and!; vm_compute; reflexivity. Qed.

(** C6, amended.  A room with two different players, whose id is the
    one the socket of one of them names (and is not the empty string):
    when that socket closes, the other player is sent one
    [opponentDisconnected] if its socket is open and nothing otherwise,
    and the room is taken out of the table; after that a [joinPrivate]
    with its id is answered [roomInvalid] (or with the format error), and
    a relay or a rematch request with its id changes nothing. *)
Theorem onClose_spec (a b : conn) (st : State) (room : Room) :
  let id := roomId (sockets st a) in
  truthy id = true →
  rooms st !! id = Some room →
  players room = [a; b] ∨ players room = [b; a] →
  a ≠ b →
  let st' := onClose a st in
  sent st' = sent st ++
    (if live st b
     then [{| target := b; payload := OpponentDisconnected; on_wire := true |}]
     else [])
  ∧ rooms st' = delete id (rooms st)
  ∧ rooms st' !! id = None
  ∧ (∀ c data, msg_roomId data = id → gameActions.relaySignal c data st' = st')
  ∧ (∀ rnd c data, msg_roomId data = id →
       gameActions.handleNewGameRequest rnd c data st' = st')
  ∧ (∀ c data, msg_roomId data = id →
       ∃ reply,
         (reply = RoomInvalid id ∨ reply = Error_ "Invalid room ID format")
         ∧ sent (handlers.joinPrivate c data st')
           = sent st' ++ [{| target := c; payload := reply; on_wire := live st' c |}]
         ∧ rooms (handlers.joinPrivate c data st') = rooms st').
Proof.
  intros id Htruthy Hroom Hplayers Hne st'.
  destruct (removeFromQueue_frame a st) as (Hr & Hs & Hsent & _).
  assert (Hst' : sent st' = sent st ++
            (if live st b
             then [{| target := b; payload := OpponentDisconnected; on_wire := true |}]
             else [])
          ∧ rooms st' = delete id (rooms st)).
  { subst st'. unfold onClose, rooms.handleDisconnect.
    rewrite Hs. fold id. rewrite Htruthy. cbn [negb]. rewrite Hr, Hroom.
    rewrite (find_other_pair a b) by done.
    rewrite (live_ext st _ b Hs).
    match goal with |- context [rooms.remove ?k ?s] =>
      destruct (remove_spec k s) as (-> & _ & _ & -> & _) end.
    destruct (live st b) eqn:Hlive.
    - unfold utils.send. cbn [sent set_sent rooms].
      by rewrite Hsent, Hr, (live_ext st _ b Hs), Hlive.
    - by rewrite Hsent, Hr, app_nil_r. }
  destruct Hst' as [Hsent' Hrooms'].
  assert (Hgone : rooms st' !! id = None)
    by (rewrite Hrooms'; apply lookup_delete_eq).
  split; [done|]. split; [done|]. split; [done|].
  by apply room_gone.
Qed.

Lemma onClose_spec_witness :
  let closed := step (Transport bob CLOSED) private_pair in
  sent (onClose bob closed)
  = sent closed ++
      [{| target := alice; payload := OpponentDisconnected; on_wire := true |}]
  ∧ rooms (onClose bob closed) !! JStr "ROOM1" = None.
Proof.
  intros closed.
  destruct (onClose_spec bob alice closed
              {| players := [alice; bob]; isPrivate := true; createdAt := 0;
                 ready_p1 := false; ready_p2 := false |})
    as (Hsent & _ & Hgone & _).
  - vm_compute. reflexivity.
  - vm_compute. reflexivity.
  - right. reflexivity.
  - unfold alice, bob. lia.
  - split; [exact Hsent|exact Hgone].
Defined.

(** ** C4: the rematch handshake *)

Lemma indexOf_first (ws : conn) (l : list conn) : indexOf ws (ws :: l) = Some 0%nat.
Proof. cbn. by rewrite decide_True. Qed.

Lemma indexOf_second (ws other : conn) (l : list conn) :
  ws ≠ other → indexOf ws (other :: ws :: l) = Some 1%nat.
Proof. intros Hne. cbn. rewrite decide_False by done. by rewrite decide_True. Qed.

(** C4, the counterexample.  Alice and Bob share ROOM1 and Bob's socket
    is closing.  Alice asks for a rematch: her flag is set, and Bob is
    sent nothing. *)
Lemma rematch_request_lost_on_closing_socket :
  let data := message "readyForNewGame" "Alice" "ROOM1" in
  let st' := handlers.readyForNewGame rnd0 alice data private_pair_closing in
  players <$> rooms private_pair_closing !! JStr "ROOM1" = Some [alice; bob]
  ∧ ready_p1 <$> rooms st' !! JStr "ROOM1" = Some true
  ∧ sent st' = sent private_pair_closing.
Proof. split_and!; vm_compute; reflexivity. Qed.

Lemma rematch_waits (rnd : list nat) (ws opp : conn) (data : Data)
    (st : State) (room : Room) (theirs : bool) (marked : Room) :
  rooms st !! msg_roomId data = Some room → ws ≠ opp →
  seated ws opp room theirs marked → theirs = false →
  let requestId := js_or (msg_reqId data) (JStr (utils.generateRoomId rnd)) in
  let st' := gameActions.handleNewGameRequest rnd ws data st in
  rooms st' = <[msg_roomId data := marked]> (rooms st)
  ∧ sent st' = sent st ++
      (if live st opp
       then [{| target := opp; payload := OpponentRequestedNewGame requestId;
                on_wire := true |}]
       else [])
  ∧ lastNewGameReqId (sockets st' ws) = requestId
  ∧ totalGamesPlayed st' = totalGamesPlayed st.
Proof.
  intros Hroom Hne Hseat Hother requestId st'. subst st'.
  unfold gameActions.handleNewGameRequest. rewrite Hroom.
  assert (Hpair : players room = [ws; opp] ∨ players room = [opp; ws])
    by (destruct Hseat as [(? & _)|(? & _)]; auto).
  assert (Hflags : ready_p1 marked && ready_p2 marked = false).
  { destruct Hseat as [(_ & <- & ->)|(_ & <- & ->)]; by rewrite Hother. }
  assert (Hmarked : players marked = players room)
    by (by destruct Hseat as [(_ & _ & ->)|(_ & _ & ->)]).
  assert ((if decide (match indexOf ws (players room) with
                      | Some i => i | None => 2%nat end = 0%nat)
           then set_ready true (ready_p2 room) room
           else set_ready (ready_p1 room) true room) = marked
          ∧ is_Some (indexOf ws (players room))) as [Hmark [i Hi]].
  { destruct Hseat as [(Hp & _ & ->)|(Hp & _ & ->)]; rewrite Hp.
    - rewrite indexOf_first. by rewrite decide_True.
    - rewrite indexOf_second by done. by rewrite decide_False. }
  rewrite Hi in Hmark |- *.
  replace (length (players room)) with 2%nat by (by destruct Hpair as [-> | ->]).
  rewrite Nat.eqb_refl. cbn [negb]. rewrite Hmark, Hflags.
  unfold utils.getOpponent. autorewrite with frame. cbn [rooms set_rooms].
  rewrite lookup_insert_eq, Hmarked.
  rewrite (find_other_pair ws opp) by auto.
  autorewrite with frame. fold requestId.
  destruct (live st opp) eqn:Hlive.
  - unfold utils.send. cbn [rooms sent set_sent totalGamesPlayed].
    autorewrite with frame. cbn [rooms sent set_rooms totalGamesPlayed].
    rewrite Hlive. sockets_simpl. done.
  - autorewrite with frame. cbn [rooms sent set_rooms totalGamesPlayed].
    rewrite app_nil_r. sockets_simpl. done.
Qed.

Lemma rematch_completes (rnd : list nat) (ws opp : conn) (data : Data)
    (st : State) (room : Room) (theirs : bool) (marked : Room) :
  rooms st !! msg_roomId data = Some room → ws ≠ opp →
  seated ws opp room theirs marked → theirs = true →
  let requestId := js_or (msg_reqId data) (JStr (utils.generateRoomId rnd)) in
  let st' := gameActions.handleNewGameRequest rnd ws data st in
  rooms st' = <[msg_roomId data := set_ready false false room]> (rooms st)
  ∧ sent st' = sent st ++
      map (fun p => {| target := p; payload := StartNewGame requestId;
                       on_wire := live st p |}) (players room)
  ∧ lastNewGameReqId (sockets st' ws) = JNull
  ∧ lastNewGameReqId (sockets st' opp) = JNull
  ∧ totalGamesPlayed st' = S (totalGamesPlayed st).
Proof.
  intros Hroom Hne Hseat Hother requestId st'. subst st'.
  unfold gameActions.handleNewGameRequest. rewrite Hroom.
  assert (Hpair : players room = [ws; opp] ∨ players room = [opp; ws])
    by (destruct Hseat as [(? & _)|(? & _)]; auto).
  assert (Hflags : ready_p1 marked && ready_p2 marked = true).
  { destruct Hseat as [(_ & <- & ->)|(_ & <- & ->)]; by rewrite Hother. }
  assert (Hmarked : players marked = players room)
    by (by destruct Hseat as [(_ & _ & ->)|(_ & _ & ->)]).
  assert (Hreset : set_ready false false marked = set_ready false false room)
    by (by destruct Hseat as [(_ & _ & ->)|(_ & _ & ->)]).
  assert ((if decide (match indexOf ws (players room) with
                      | Some i => i | None => 2%nat end = 0%nat)
           then set_ready true (ready_p2 room) room
           else set_ready (ready_p1 room) true room) = marked
          ∧ is_Some (indexOf ws (players room))) as [Hmark [i Hi]].
  { destruct Hseat as [(Hp & _ & ->)|(Hp & _ & ->)]; rewrite Hp.
    - rewrite indexOf_first. by rewrite decide_True.
    - rewrite indexOf_second by done. by rewrite decide_False. }
  rewrite Hi in Hmark |- *.
  replace (length (players room)) with 2%nat by (by destruct Hpair as [-> | ->]).
  rewrite Nat.eqb_refl. cbn [negb]. rewrite Hmark, Hflags, Hreset.
  fold requestId.
  unfold utils.broadcastToRoom. cbn [rooms set_totalGamesPlayed set_rooms].
  autorewrite with frame. cbn [rooms set_rooms].
  rewrite insert_insert_eq, lookup_insert_eq.
  cbn [players set_ready].
  destruct Hpair as [-> | ->]; cbn [foldl map];
    rewrite !decide_False by done; unfold utils.send;
    autorewrite with frame; cbn [rooms sent totalGamesPlayed set_sent
                                 set_rooms set_totalGamesPlayed];
    autorewrite with frame; cbn [rooms sent totalGamesPlayed set_sent
                                 set_rooms set_totalGamesPlayed];
    rewrite <- app_assoc; sockets_simpl; done.
Qed.

Lemma seated_again (ws opp : conn) (room marked : Room) :
  seated ws opp room false marked → seated ws opp marked false marked.
Proof.
  intros [(Hp & Hf & ->)|(Hp & Hf & ->)]; [left|right];
    cbn [players ready_p1 ready_p2 set_ready]; rewrite <- Hf; done.
Qed.

Lemma seated_other (ws opp : conn) (room marked : Room) :
  ready_p1 room = false → ready_p2 room = false →
  seated ws opp room false marked →
  ∃ both, seated opp ws marked true both.
Proof.
  intros H1 H2 [(Hp & _ & ->)|(Hp & _ & ->)]; eexists; [right|left];
    cbn [players ready_p1 ready_p2 set_ready]; done.
Qed.

(** C4, amended.  A room with two different players, [ws] in one slot
    and [opp] in the other, and a rematch request from [ws] that names
    it; the request id is the one of the message, or a made-up one when
    the message has none.

    While the flag of [opp] is not set: the flag of [ws] is set, the
    request id is recorded on the socket of [ws], and [opp] is sent one
    [opponentRequestedNewGame] with that id if its socket is open, and
    nothing otherwise; the counter does not move, and a further request
    from [ws] leaves the room table as it is.

    When the flag of [opp] is set: both flags are reset, the counter
    goes up by one, [startNewGame] with the id of this request goes once
    to each of the two players (on the wire for those whose socket is
    open), and the request ids recorded on both sockets are cleared.

    So from a room with no flag set, a request from [ws] followed by one
    from [opp] ends with both flags reset, both markers cleared, the
    counter one higher, and one [startNewGame] each, carrying the id of
    the second request. *)
Theorem handleNewGameRequest_spec (rnd : list nat) (ws opp : conn) (data : Data)
    (st : State) (room : Room) (theirs : bool) (marked : Room) :
  rooms st !! msg_roomId data = Some room →
  ws ≠ opp →
  seated ws opp room theirs marked →
  let id := msg_roomId data in
  let requestId := js_or (msg_reqId data) (JStr (utils.generateRoomId rnd)) in
  let st' := gameActions.handleNewGameRequest rnd ws data st in
  (theirs = false →
     rooms st' = <[id := marked]> (rooms st)
     ∧ sent st' = sent st ++
         (if live st opp
          then [{| target := opp; payload := OpponentRequestedNewGame requestId;
                   on_wire := true |}]
          else [])
     ∧ lastNewGameReqId (sockets st' ws) = requestId
     ∧ totalGamesPlayed st' = totalGamesPlayed st
     ∧ (∀ rnd2 data2, msg_roomId data2 = id →
          rooms (gameActions.handleNewGameRequest rnd2 ws data2 st') = rooms st'))
  ∧ (theirs = true →
     rooms st' = <[id := set_ready false false room]> (rooms st)
     ∧ sent st' = sent st ++
         map (fun p => {| target := p; payload := StartNewGame requestId;
                          on_wire := live st p |}) (players room)
     ∧ lastNewGameReqId (sockets st' ws) = JNull
     ∧ lastNewGameReqId (sockets st' opp) = JNull
     ∧ totalGamesPlayed st' = S (totalGamesPlayed st))
  ∧ (ready_p1 room = false → ready_p2 room = false →
     ∀ rnd2 data2, msg_roomId data2 = id →
       let requestId2 := js_or (msg_reqId data2) (JStr (utils.generateRoomId rnd2)) in
       let st'' := gameActions.handleNewGameRequest rnd2 opp data2 st' in
       rooms st'' = <[id := set_ready false false room]> (rooms st)
       ∧ sent st'' = sent st' ++
           map (fun p => {| target := p; payload := StartNewGame requestId2;
                            on_wire := live st' p |}) (players room)
       ∧ lastNewGameReqId (sockets st'' ws) = JNull
       ∧ lastNewGameReqId (sockets st'' opp) = JNull
       ∧ totalGamesPlayed st'' = S (totalGamesPlayed st)).
Proof.
  intros Hroom Hne Hseat id requestId st'. split_and!.
  - intros Hother.
    destruct (rematch_waits rnd ws opp data st room theirs marked)
      as (Hr & Hs & Hl & Ht); try done.
    split_and!; try done.
    intros rnd2 data2 Hid. fold st' in Hr. subst theirs.
    destruct (rematch_waits rnd2 ws opp data2 st' marked false marked)
      as (Hr2 & _); try done.
    + rewrite Hr, Hid. apply lookup_insert_eq.
    + by apply (seated_again ws opp room).
    + rewrite Hr2, Hr, Hid. apply insert_insert_eq.
  - intros Hother. by apply (rematch_completes rnd ws opp data st room theirs marked).
  - intros H1 H2 rnd2 data2 Hid requestId2 st''.
    assert (theirs = false) as ->.
    { destruct Hseat as [(_ & -> & _)|(_ & -> & _)]; done. }
    destruct (rematch_waits rnd ws opp data st room false marked)
      as (Hr & _ & _ & Ht); try done.
    fold st' in Hr, Ht.
    destruct (seated_other ws opp room marked H1 H2 Hseat) as [both Hboth].
    destruct (rematch_completes rnd2 opp ws data2 st' marked true both)
      as (Hr2 & Hs2 & Hl1 & Hl2 & Ht2); try done.
    + rewrite Hr, Hid. apply lookup_insert_eq.
    + fold st'' in Hr2, Hs2, Hl1, Hl2, Ht2. fold requestId2 in Hs2.
      assert (Hsame : players marked = players room
                      ∧ set_ready false false marked = set_ready false false room)
        by (by destruct Hseat as [(_ & _ & ->)|(_ & _ & ->)]).
      destruct Hsame as [Hpl Hrs].
      rewrite Hpl in Hs2. rewrite Hrs in Hr2. split_and!; try done.
      * rewrite Hr2, Hr, Hid. apply insert_insert_eq.
      * by rewrite Ht2, Ht.
Qed.

Lemma handleNewGameRequest_spec_witness :
  let data := message "readyForNewGame" "Alice" "ROOM1" in
  let room := {| players := [alice; bob]; isPrivate := true; createdAt := 0;
                 ready_p1 := false; ready_p2 := false |} in
  let st' := gameActions.handleNewGameRequest rnd0 alice data private_pair in
  rooms private_pair !! JStr "ROOM1" = Some room
  ∧ sent st' = sent private_pair ++
      [{| target := bob; payload := OpponentRequestedNewGame (JStr "4FZYO82M");
          on_wire := true |}]
  ∧ sent (gameActions.handleNewGameRequest [] bob
            (message "readyForNewGame" "Bob" "ROOM1") st')
    = sent st' ++
        [ {| target := alice; payload := StartNewGame (JStr ""); on_wire := true |};
          {| target := bob; payload := StartNewGame (JStr ""); on_wire := true |} ].
Proof.
  intros data room st'.
  assert (Hroom : rooms private_pair !! msg_roomId data = Some room)
    by (vm_compute; reflexivity).
  assert (Hne : alice ≠ bob) by (unfold alice, bob; lia).
  assert (Hseat : seated alice bob room false (set_ready true false room))
    by (left; split_and!; reflexivity).
  destruct (handleNewGameRequest_spec rnd0 alice bob data private_pair room false
              (set_ready true false room) Hroom Hne Hseat)
    as (Hwait & _ & Hround).
  destruct (Hwait eq_refl) as (_ & Hsent & _).
  destruct (Hround eq_refl eq_refl [] (message "readyForNewGame" "Bob" "ROOM1") eq_refl)
    as (_ & Hsent2 & _).
  split; [exact Hroom|]. split; [exact Hsent|exact Hsent2].
Defined.

(** * Further properties of the code *)

(** ** The reachable states *)

(** X1.  From start-up and whatever the inputs, at most one socket is
    waiting for a public match: an arrival is queued only when nobody
    open is waiting, and is paired otherwise. *)
Theorem queue_never_exceeds_one (inputs : list Input) :
  (length (waitingPlayers (run inputs init)) ≤ 1)%nat.
Proof. by destruct (reachable_Inv _ (reachable_run inputs)). Qed.

Lemma Shape_frame (st st' : State) : rooms st' = rooms st → Shape st → Shape st'.
Proof. unfold Shape. by intros ->. Qed.

Lemma Shape_insert (st st' : State) (s : string) (r : Room) :
  rooms st' = <[JStr s := r]> (rooms st) →
  (isPrivate r = false → length (players r) = 2%nat) →
  Shape st → Shape st'.
Proof.
  intros Hr Hshape HS k r'. rewrite Hr, lookup_insert.
  case_decide as Hk; [|by apply HS].
  intros [= <-]. split; [by exists s|done].
Qed.

Lemma Shape_delete (st st' : State) (k : jsval) :
  rooms st' = delete k (rooms st) → Shape st → Shape st'.
Proof.
  intros Hr HS k' r'. rewrite Hr, lookup_delete.
  case_decide; [done|by apply HS].
Qed.

Lemma handleNewGameRequest_rooms rnd ws data st :
  rooms (gameActions.handleNewGameRequest rnd ws data st) = rooms st
  ∨ ∃ room p1 p2,
      rooms st !! msg_roomId data = Some room
      ∧ rooms (gameActions.handleNewGameRequest rnd ws data st)
        = <[msg_roomId data := set_ready p1 p2 room]> (rooms st).
Proof.
  unfold gameActions.handleNewGameRequest.
  destruct (rooms st !! msg_roomId data) as [room|] eqn:Hroom; [|by left].
  destruct (negb _); [by left|].
  destruct (indexOf ws (players room)) as [playerIndex|]; [|by left].
  right. exists room.
  set (room1 := if decide (playerIndex = 0%nat) then _ else _).
  destruct (ready_p1 room1 && ready_p2 room1).
  - exists false, false.
    match goal with |- context [foldl ?f ?s ?l] =>
      destruct (clear_requests_frame l s) as (-> & _) end.
    match goal with |- context [utils.broadcastToRoom ?k ?d ?e ?s] =>
      destruct (broadcastToRoom_frame k d e s) as (-> & _) end.
    split; [done|]. cbn [rooms set_totalGamesPlayed set_rooms].
    autorewrite with frame. cbn [rooms set_rooms].
    rewrite insert_insert_eq. subst room1. by case_decide.
  - exists (ready_p1 room1), (ready_p2 room1). split; [done|].
    assert (set_ready (ready_p1 room1) (ready_p2 room1) room = room1) as ->
      by (subst room1; by case_decide).
    destruct (utils.getOpponent _ _ _) as [o|]; [|done].
    by destruct (live _ o).
Qed.

Lemma handleDisconnect_rooms ws st :
  rooms (rooms.handleDisconnect ws st) = rooms st
  ∨ rooms (rooms.handleDisconnect ws st) = delete (roomId (sockets st ws)) (rooms st).
Proof.
  unfold rooms.handleDisconnect.
  destruct (negb _); [by left|].
  destruct (rooms st !! roomId (sockets st ws)) as [room|]; [|by left].
  right.
  match goal with |- rooms (rooms.remove ?k ?s) = _ =>
    destruct (remove_spec k s) as (-> & _) end.
  destruct (find_other ws (players room)) as [o|]; [|done].
  by destruct (live st o).
Qed.

Lemma step_Shape (i : Input) (st : State) : Shape st → Shape (step i st).
Proof.
  intros HS. destruct i as [ws|h ws data now rnd|ws|now|ws r]; cbn [step].
  - revert HS. by apply Shape_frame.
  - destruct h.
    + match goal with |- Shape (caught ?w ?c) =>
        destruct (caught_frame w c) as (Hc & _) end.
      apply (Shape_frame _ _ Hc). clear Hc.
      unfold handlers.joinPublic.
      assert (Shape (handlers.nameSocket ws data st)) as HS'
        by (revert HS; by apply Shape_frame).
      destruct (filter (fun p => live (handlers.nameSocket ws data st) p)
                  (waitingPlayers (handlers.nameSocket ws data st)))
        as [|opponent rest] eqn:Hf.
      * rewrite joinPublicQueue_waits by done. cbn [state].
        revert HS'. by apply Shape_frame.
      * destruct (joinPublicQueue_pairs rnd now ws _ opponent rest Hf) as (Hr & _).
        by apply (Shape_insert _ _ _ _ Hr).
    + destruct (utils.isValidRoomId (msg_roomId data)) eqn:Hvalid.
      * destruct (rooms st !! msg_roomId data) as [room|] eqn:Hroom.
        -- rewrite createPrivate_taken by done. revert HS. by apply Shape_frame.
        -- rewrite createPrivate_creates by done.
           apply isValidRoomId_true in Hvalid as (s & Hs & _).
           apply (Shape_insert st _ s
                    {| players := [ws]; isPrivate := true; createdAt := now;
                       ready_p1 := false; ready_p2 := false |}); [|done..].
           by rewrite <- Hs.
      * rewrite createPrivate_invalid by done. revert HS. by apply Shape_frame.
    + match goal with |- Shape (caught ?w ?c) =>
        destruct (caught_frame w c) as (Hc & _) end.
      apply (Shape_frame _ _ Hc). clear Hc.
      destruct (utils.isValidRoomId (msg_roomId data)) eqn:Hvalid.
      * destruct (rooms st !! msg_roomId data) as [room|] eqn:Hroom.
        -- destruct (Nat.leb_spec 2 (length (players room))) as [Hfull|Hfree].
           ++ rewrite (joinPrivate_full _ _ _ room) by done.
              revert HS. by apply Shape_frame.
           ++ destruct (joinPrivate_seats ws data st room) as (Hr & _); [done..|].
              apply isValidRoomId_true in Hvalid as (s & Hs & _).
              apply (Shape_insert st _ s (set_players (players room ++ [ws]) room));
                [by rewrite <- Hs| |done].
              ** cbn [isPrivate players set_players]. intros Hpub.
                 destruct (HS _ _ Hroom) as [_ Htwo]. specialize (Htwo Hpub). lia.
        -- rewrite joinPrivate_missing by done. revert HS. by apply Shape_frame.
      * rewrite joinPrivate_invalid by done. revert HS. by apply Shape_frame.
    + destruct (relaySignal_frame ws data st) as (Hr & _). by apply (Shape_frame _ _ Hr).
    + destruct (relaySignal_frame ws data st) as (Hr & _). by apply (Shape_frame _ _ Hr).
    + destruct (relaySignal_frame ws data st) as (Hr & _). by apply (Shape_frame _ _ Hr).
    + unfold handlers.readyForNewGame.
      destruct (handleNewGameRequest_rooms rnd ws data st)
        as [Hr|(room & p1 & p2 & Hroom & Hr)].
      * by apply (Shape_frame _ _ Hr).
      * destruct (HS _ _ Hroom) as [[s Hs] Htwo].
        rewrite Hs in Hr. by apply (Shape_insert _ _ _ _ Hr).
  - unfold onClose.
    assert (Shape (matchmaking.removeFromQueue ws st)) as HS'.
    { destruct (removeFromQueue_frame ws st) as (Hr & _). by apply (Shape_frame _ _ Hr). }
    destruct (handleDisconnect_rooms ws (matchmaking.removeFromQueue ws st)) as [Hr|Hr].
    + by apply (Shape_frame _ _ Hr).
    + by apply (Shape_delete _ _ _ Hr).
  - intros k r Hk.
    destruct (rooms st !! k) as [r0|] eqn:Hk0.
    + rewrite (cleanup_lookup st now k r0 Hk0) in Hk.
      destruct (stale st now r0); [done|]. injection Hk as <-. by apply HS.
    + by rewrite (cleanup_adds_nothing st now k Hk0) in Hk.
  - revert HS. by apply Shape_frame.
Qed.

Lemma run_Shape (inputs : list Input) : Shape (run inputs init).
Proof.
  induction inputs as [|i inputs IH] using rev_ind.
  - intros k r. cbn. by rewrite lookup_empty.
  - rewrite run_snoc. by apply step_Shape.
Qed.

(** X2.  From start-up and whatever the inputs, every room of the table
    sits under a string id and holds one or two players; a room with one
    player is a private one whose id passed [isValidRoomId], and a public
    room always holds two. *)
Theorem reachable_rooms_shape (inputs : list Input) (k : jsval) (r : Room) :
  rooms (run inputs init) !! k = Some r →
  (∃ s, k = JStr s)
  ∧ (length (players r) = 1%nat ∨ length (players r) = 2%nat)
  ∧ (length (players r) = 1%nat → isPrivate r = true ∧ utils.isValidRoomId k = true)
  ∧ (isPrivate r = false → length (players r) = 2%nat).
Proof.
  intros Hk. pose proof (run_Shape inputs) as HS.
  destruct (reachable_Inv _ (reachable_run inputs)) as [_ Hok].
  destruct (HS _ _ Hk) as [Hstr Hpub]. specialize (Hok _ _ Hk).
  split; [done|]. split; [destruct Hok as [[? _]|?]; auto|].
  split; [|done]. intros Hone.
  destruct Hok as [[_ Hvalid]|Htwo]; [|lia].
  split; [|done]. destruct (isPrivate r) eqn:Hp; [done|].
  specialize (Hpub eq_refl). lia.
Qed.

Lemma reachable_rooms_shape_witness :
  let inputs :=
    [Message HCreatePrivate alice (message "createPrivate" "Alice" "ROOM1") 0 []] in
  let room := {| players := [alice]; isPrivate := true; createdAt := 0;
                 ready_p1 := false; ready_p2 := false |} in
  rooms (run inputs init) !! JStr "ROOM1" = Some room
  ∧ (length (players room) = 1%nat →
     isPrivate room = true ∧ utils.isValidRoomId (JStr "ROOM1") = true).
Proof.
  intros inputs room.
  assert (Hroom : rooms (run inputs init) !! JStr "ROOM1" = Some room)
    by (vm_compute; reflexivity).
  split; [exact Hroom|].
  destruct (reachable_rooms_shape inputs (JStr "ROOM1") room Hroom) as (_ & _ & Hone & _).
  exact Hone.
Defined.

(** ** What the handlers never touch *)

Lemma same_env_refl (st : State) : same_env st st.
Proof. by split. Qed.

Lemma same_env_trans (st1 st2 st3 : State) :
  same_env st1 st2 → same_env st2 st3 → same_env st1 st3.
Proof.
  intros [H1 H2] [H3 H4]. split; [congruence|].
  intros p. by rewrite H4, H2.
Qed.

Lemma same_env_update_socket (ws : conn) (f : Socket -> Socket) (st : State) :
  (∀ s, readyState (f s) = readyState s) →
  same_env st (update_socket ws f st).
Proof.
  intros Hf. split; [done|]. intros p.
  destruct (decide (p = ws)) as [->|Hp].
  - by rewrite sockets_update_socket_eq.
  - by rewrite sockets_update_socket_ne.
Qed.

Lemma same_env_sockets (st st' : State) :
  totalPlayersJoined st' = totalPlayersJoined st → sockets st' = sockets st →
  same_env st st'.
Proof. intros H1 H2. split; [done|]. by rewrite H2. Qed.

Lemma same_env_announceFrom k ps i todo st : same_env st (announceFrom k ps i todo st).
Proof.
  revert i st. induction todo as [|p todo IH]; intros i st; [apply same_env_refl|].
  cbn [announceFrom]. eapply same_env_trans; [|apply IH]. by apply same_env_sockets.
Qed.

Lemma same_env_broadcastToRoom k d e st : same_env st (utils.broadcastToRoom k d e st).
Proof.
  unfold utils.broadcastToRoom. destruct (rooms st !! k) as [room|]; [|apply same_env_refl].
  generalize (players room). intros l. revert st.
  induction l as [|p l IH]; intros st; [apply same_env_refl|].
  cbn [foldl]. case_decide; [apply IH|].
  eapply same_env_trans; [|apply IH]. by apply same_env_sockets.
Qed.

Lemma same_env_clear_requests (l : list conn) (st : State) :
  same_env st (foldl (fun acc p => update_socket p (set_lastNewGameReqId JNull) acc) st l).
Proof.
  revert st. induction l as [|p l IH]; intros st; [apply same_env_refl|].
  cbn [foldl]. eapply same_env_trans; [|apply IH]. by apply same_env_update_socket.
Qed.

Lemma same_env_nameSocket ws data st : same_env st (handlers.nameSocket ws data st).
Proof. by apply same_env_update_socket. Qed.

Lemma same_env_create now k ws b st : same_env st (rooms.create now k ws b st).
Proof.
  unfold rooms.create. eapply same_env_trans; [|by apply same_env_update_socket].
  by apply same_env_sockets.
Qed.

Lemma state_discard {A : Type} (c : Completion A) : state (discard c) = state c.
Proof. by destruct c. Qed.

Lemma same_env_caught (ws : conn) (c : Completion unit) : same_env c (caught ws c).
Proof. destruct c; [apply same_env_refl|by apply same_env_sockets]. Qed.

Lemma same_env_join k ws st : same_env st (rooms.join k ws st).
Proof.
  unfold rooms.join. destruct (rooms st !! k) as [room|]; [|apply same_env_refl].
  destruct (2 <=? length (players room))%nat; cbn [state].
  - by apply same_env_sockets.
  - assert (same_env st
              (update_socket ws (set_roomId k)
                 (set_rooms (<[k:=set_players (players room ++ [ws]) room]> (rooms st))
                    st))) as Hs.
    { eapply same_env_trans; [|by apply same_env_update_socket].
      by apply same_env_sockets. }
    destruct (_ && _); cbn [state]; [|exact Hs].
    unfold announceMatch. eapply same_env_trans; [exact Hs|apply same_env_announceFrom].
Qed.

Lemma same_env_joinPublicQueue rnd now ws st :
  same_env st (matchmaking.joinPublicQueue rnd now ws st).
Proof.
  unfold matchmaking.joinPublicQueue. cbn [waitingPlayers set_waitingPlayers].
  destruct (filter _ _) as [|opponent rest].
  - by apply same_env_sockets.
  - match goal with |- context [rooms.join ?k ?w ?s] =>
      assert (same_env st (rooms.join k w s)) as Hs end.
    { eapply same_env_trans; [|apply same_env_join].
      eapply same_env_trans; [|by apply same_env_update_socket].
      eapply same_env_trans; [|by apply same_env_update_socket].
      eapply same_env_trans; [|apply same_env_create].
      by apply same_env_sockets. }
    destruct (rooms.join _ _ _) as [joined s1|s1]; cbn [state] in *; [|done].
    destruct (rooms _ !! _) as [room|]; [|done].
    destruct (length (players room) =? 2)%nat; [|done].
    unfold announceMatch. eapply same_env_trans; [exact Hs|apply same_env_announceFrom].
Qed.

Lemma same_env_handleNewGameRequest rnd ws data st :
  same_env st (gameActions.handleNewGameRequest rnd ws data st).
Proof.
  unfold gameActions.handleNewGameRequest.
  destruct (rooms st !! msg_roomId data) as [room|]; [|apply same_env_refl].
  destruct (negb _); [apply same_env_refl|].
  destruct (indexOf ws (players room)) as [playerIndex|]; [|apply same_env_refl].
  set (room1 := if decide (playerIndex = 0%nat) then _ else _).
  assert (same_env st
            (update_socket ws
               (set_lastNewGameReqId
                  (js_or (msg_reqId data) (JStr (utils.generateRoomId rnd))))
               (set_rooms (<[msg_roomId data:=room1]> (rooms st)) st))) as Hs.
  { eapply same_env_trans; [|by apply same_env_update_socket]. by apply same_env_sockets. }
  destruct (ready_p1 room1 && ready_p2 room1).
  - eapply same_env_trans; [|apply same_env_clear_requests].
    eapply same_env_trans; [|apply same_env_broadcastToRoom].
    eapply same_env_trans; [exact Hs|]. by apply same_env_sockets.
  - destruct (utils.getOpponent _ _ _) as [o|]; [|done].
    destruct (live _ o); [|done].
    eapply same_env_trans; [exact Hs|]. by apply same_env_sockets.
Qed.

Lemma same_env_onClose ws st : same_env st (onClose ws st).
Proof.
  unfold onClose, rooms.handleDisconnect.
  destruct (removeFromQueue_frame ws st) as (_ & Hs & _).
  assert (same_env st (matchmaking.removeFromQueue ws st)) as Hq.
  { apply same_env_sockets; [|done]. unfold matchmaking.removeFromQueue.
    by destruct (indexOf _ _). }
  destruct (negb _); [done|].
  destruct (rooms _ !! _) as [room|]; [|done].
  match goal with |- same_env _ (rooms.remove ?k ?s) =>
    destruct (remove_spec k s) as (_ & _ & Hsock & _);
    assert (totalPlayersJoined (rooms.remove k s) = totalPlayersJoined s) as Htot
      by (unfold rooms.remove; by destruct (rooms s !! k));
    apply (same_env_trans st s); [|by apply same_env_sockets] end.
  destruct (find_other ws (players room)) as [o|]; [|done].
  destruct (live _ o); [|done].
  eapply same_env_trans; [exact Hq|]. by apply same_env_sockets.
Qed.

Lemma same_env_createPrivate now ws data st :
  same_env st (handlers.createPrivate now ws data st).
Proof.
  unfold handlers.createPrivate.
  destruct (negb _); [|destruct (bool_decide _)].
  - eapply same_env_trans; [apply same_env_nameSocket|by apply same_env_sockets].
  - eapply same_env_trans; [apply same_env_nameSocket|by apply same_env_sockets].
  - eapply same_env_trans; [apply same_env_nameSocket|].
    eapply same_env_trans; [apply same_env_create|by apply same_env_sockets].
Qed.

Lemma same_env_joinPrivate ws data st :
  same_env st (handlers.joinPrivate ws data st).
Proof.
  unfold handlers.joinPrivate.
  destruct (negb _); cbn [state].
  - eapply same_env_trans; [apply same_env_nameSocket|by apply same_env_sockets].
  - destruct (rooms _ !! _) as [room|]; cbn [state].
    + destruct (2 <=? length (players room))%nat; cbn [state].
      * eapply same_env_trans; [apply same_env_nameSocket|by apply same_env_sockets].
      * rewrite state_discard.
        eapply same_env_trans; [apply same_env_nameSocket|apply same_env_join].
    + eapply same_env_trans; [apply same_env_nameSocket|by apply same_env_sockets].
Qed.

Lemma step_same_env (i : Input) (st : State) :
  is_connection i = false → is_transport i = false → same_env st (step i st).
Proof.
  destruct i as [ws|h ws data now rnd|ws|now|ws r]; cbn [is_connection is_transport step];
    try done; intros _ _.
  - destruct h.
    + eapply same_env_trans; [|apply same_env_caught].
      unfold handlers.joinPublic.
      eapply same_env_trans; [apply same_env_nameSocket|apply same_env_joinPublicQueue].
    + apply same_env_createPrivate.
    + eapply same_env_trans; [|apply same_env_caught]. apply same_env_joinPrivate.
    + destruct (relaySignal_frame ws data st) as (_ & _ & Hs & _).
      apply same_env_sockets; [|done]. unfold handlers.offer, gameActions.relaySignal.
      destruct (utils.getOpponent _ _ _) as [o|]; [|done]. by destruct (live st o).
    + destruct (relaySignal_frame ws data st) as (_ & _ & Hs & _).
      apply same_env_sockets; [|done]. unfold handlers.answer, gameActions.relaySignal.
      destruct (utils.getOpponent _ _ _) as [o|]; [|done]. by destruct (live st o).
    + destruct (relaySignal_frame ws data st) as (_ & _ & Hs & _).
      apply same_env_sockets; [|done]. unfold handlers.ice, gameActions.relaySignal.
      destruct (utils.getOpponent _ _ _) as [o|]; [|done]. by destruct (live st o).
    + apply same_env_handleNewGameRequest.
  - apply same_env_onClose.
Qed.

(** X3.  No handler closes a socket or changes its ready state, and
    none counts a connection: whatever the input, unless it is a
    connection or a move of the transport layer, every socket has the
    ready state it had and the count of connections is what it was. *)
Theorem handlers_leave_sockets_open_or_closed (i : Input) (st : State) (p : conn) :
  is_connection i = false → is_transport i = false →
  readyState (sockets (step i st) p) = readyState (sockets st p)
  ∧ totalPlayersJoined (step i st) = totalPlayersJoined st.
Proof.
  intros Hc Ht. destruct (step_same_env i st Hc Ht) as [Htot Hready]. by split.
Qed.

Lemma handlers_leave_sockets_open_or_closed_witness :
  readyState (sockets (step (Close bob) private_pair_closing) bob) = CLOSING.
Proof.
  destruct (handlers_leave_sockets_open_or_closed (Close bob) private_pair_closing bob
              eq_refl eq_refl) as [Hready _].
  rewrite Hready. vm_compute. reflexivity.
Defined.

(** X4.  The count of connections is the number of connection events:
    after any run it has gone up by the number of [Connection] inputs of
    the run, the sockets that connected twice counted twice. *)
Theorem totalPlayersJoined_counts_connections (inputs : list Input) (st : State) :
  totalPlayersJoined (run inputs st)
  = (totalPlayersJoined st + length (List.filter is_connection inputs))%nat.
Proof.
  induction inputs as [|i inputs IH] using rev_ind; [cbn; lia|].
  rewrite run_snoc, List.filter_app, length_app, Nat.add_assoc, <- IH.
  destruct i as [ws|h ws data now rnd|ws|now|ws r].
  - cbn. lia.
  - destruct (step_same_env (Message h ws data now rnd) (run inputs st) eq_refl eq_refl)
      as [-> _]. cbn. lia.
  - destruct (step_same_env (Close ws) (run inputs st) eq_refl eq_refl) as [-> _].
    cbn. lia.
  - destruct (step_same_env (Sweep now) (run inputs st) eq_refl eq_refl) as [-> _].
    cbn. lia.
  - cbn [step List.filter is_connection length]. rewrite Nat.add_0_r. reflexivity.
Qed.

(** ** The counter of games *)

Lemma handleNewGameRequest_total rnd ws data st :
  totalGamesPlayed (gameActions.handleNewGameRequest rnd ws data st) = totalGamesPlayed st
  ∨ totalGamesPlayed (gameActions.handleNewGameRequest rnd ws data st)
    = S (totalGamesPlayed st).
Proof.
  unfold gameActions.handleNewGameRequest.
  destruct (rooms st !! msg_roomId data) as [room|]; [|by left].
  destruct (negb _); [by left|].
  destruct (indexOf ws (players room)) as [playerIndex|]; [|by left].
  set (room1 := if decide (playerIndex = 0%nat) then _ else _).
  destruct (ready_p1 room1 && ready_p2 room1).
  - right.
    match goal with |- context [foldl ?f ?s ?l] =>
      destruct (clear_requests_frame l s) as (_ & _ & _ & ->) end.
    match goal with |- context [utils.broadcastToRoom ?k ?d ?e ?s] =>
      destruct (broadcastToRoom_frame k d e s) as (_ & _ & _ & ->) end.
    done.
  - left. destruct (utils.getOpponent _ _ _) as [o|]; [|done].
    by destruct (live _ o).
Qed.

Lemma handleDisconnect_total ws st :
  totalGamesPlayed (rooms.handleDisconnect ws st) = totalGamesPlayed st.
Proof.
  unfold rooms.handleDisconnect.
  destruct (negb _); [done|].
  destruct (rooms st !! roomId (sockets st ws)) as [room|]; [|done].
  match goal with |- totalGamesPlayed (rooms.remove ?k ?s) = _ =>
    destruct (remove_spec k s) as (_ & _ & _ & _ & ->) end.
  destruct (find_other ws (players room)) as [o|]; [|done].
  by destruct (live st o).
Qed.

Lemma step_total_quiet (i : Input) (st : State) :
  is_rematch i = false → totalGamesPlayed (step i st) = totalGamesPlayed st.
Proof.
  destruct i as [ws|h ws data now rnd|ws|now|ws r]; cbn [step]; try done.
  - destruct h; cbn [is_rematch]; try done; intros _.
    + match goal with |- context [caught ?w ?c] =>
        destruct (caught_frame w c) as (_ & _ & _ & -> & _) end.
      unfold handlers.joinPublic.
      destruct (filter (fun p => live (handlers.nameSocket ws data st) p)
                  (waitingPlayers (handlers.nameSocket ws data st)))
        as [|opponent rest] eqn:Hf.
      * by rewrite joinPublicQueue_waits.
      * by destruct (joinPublicQueue_pairs rnd now ws _ opponent rest Hf) as (_ & _ & -> & _).
    + destruct (utils.isValidRoomId (msg_roomId data)) eqn:Hvalid.
      * destruct (rooms st !! msg_roomId data) as [room|] eqn:Hroom.
        -- by rewrite createPrivate_taken.
        -- by rewrite createPrivate_creates.
      * by rewrite createPrivate_invalid.
    + match goal with |- context [caught ?w ?c] =>
        destruct (caught_frame w c) as (_ & _ & _ & -> & _) end.
      destruct (utils.isValidRoomId (msg_roomId data)) eqn:Hvalid.
      * destruct (rooms st !! msg_roomId data) as [room|] eqn:Hroom.
        -- destruct (Nat.leb_spec 2 (length (players room))) as [Hfull|Hfree].
           ++ by rewrite (joinPrivate_full _ _ _ room).
           ++ by destruct (joinPrivate_seats ws data st room) as (_ & _ & _ & ->).
        -- by rewrite joinPrivate_missing.
      * by rewrite joinPrivate_invalid.
    + unfold handlers.offer.
      by destruct (relaySignal_frame ws data st) as (_ & _ & _ & ->).
    + unfold handlers.answer.
      by destruct (relaySignal_frame ws data st) as (_ & _ & _ & ->).
    + unfold handlers.ice.
      by destruct (relaySignal_frame ws data st) as (_ & _ & _ & ->).
  - intros _. unfold onClose. rewrite handleDisconnect_total.
    by destruct (removeFromQueue_frame ws st) as (_ & _ & _ & ->).
Qed.

(** X5.  The counter of games never goes down, and only rematch
    requests move it, by one at most each: after any run it lies between
    what it was and that plus the number of [readyForNewGame] messages of
    the run. *)
Theorem totalGamesPlayed_bounds (inputs : list Input) (st : State) :
  (totalGamesPlayed st ≤ totalGamesPlayed (run inputs st)
   ≤ totalGamesPlayed st + length (List.filter is_rematch inputs))%nat.
Proof.
  induction inputs as [|i inputs IH] using rev_ind; [cbn; lia|].
  rewrite run_snoc, List.filter_app, length_app.
  destruct (is_rematch i) eqn:Hi.
  - destruct i as [ws|h ws data now rnd|ws|now|ws r]; try done.
    destruct h; try done. cbn [step List.filter is_rematch length].
    unfold handlers.readyForNewGame.
    destruct (handleNewGameRequest_total rnd ws data (run inputs st)) as [-> | ->]; lia.
  - rewrite (step_total_quiet i _ Hi). cbn [List.filter]. rewrite Hi. cbn [length]. lia.
Qed.

(** ** The room table, operation by operation *)


(** X7.  [rooms.remove] takes the room out and nothing else: the id
    is free afterwards, every other room is still there, and removing
    once more, or removing a room that is not there, changes nothing. *)
Theorem rooms_remove_idempotent (id : jsval) (st : State) :
  rooms (rooms.remove id st) !! id = None
  ∧ (∀ k, k ≠ id → rooms (rooms.remove id st) !! k = rooms st !! k)
  ∧ rooms.remove id (rooms.remove id st) = rooms.remove id st
  ∧ (rooms st !! id = None → rooms.remove id st = st)
  ∧ sent (rooms.remove id st) = sent st.
Proof.
  destruct (remove_spec id st) as (Hr & _ & _ & Hsent & _).
  assert (Hgone : rooms (rooms.remove id st) !! id = None)
    by (rewrite Hr; apply lookup_delete_eq).
  split_and!; try done.
  - intros k Hk. rewrite Hr. by apply lookup_delete_ne.
  - unfold rooms.remove at 1. by rewrite Hgone.
  - intros Hnone. unfold rooms.remove. by rewrite Hnone.
Qed.

(** ** The queue *)

Lemma indexOf_None (ws : conn) (l : list conn) : indexOf ws l = None ↔ ws ∉ l.
Proof.
  induction l as [|p l IH]; cbn.
  - split; [intros _; apply not_elem_of_nil|done].
  - case_decide as Hp.
    + split; [done|]. intros Hnot. exfalso. apply Hnot. subst. by left.
    + rewrite not_elem_of_cons. destruct (indexOf ws l); cbn.
      * split; [done|]. intros [_ Hnot]. by apply IH in Hnot.
      * split; [|done]. intros _. split; [done|]. by apply IH.
Qed.

Lemma indexOf_split (ws : conn) (l1 l2 : list conn) :
  ws ∉ l1 →
  indexOf ws (l1 ++ ws :: l2) = Some (length l1)
  ∧ delete (length l1) (l1 ++ ws :: l2) = l1 ++ l2.
Proof.
  induction l1 as [|p l1 IH].
  - intros _. cbn. by rewrite decide_True.
  - intros [Hp Hnot]%not_elem_of_cons. destruct (IH Hnot) as [Hi Hdel]. split.
    + cbn [app indexOf length]. rewrite decide_False by done. by rewrite Hi.
    + cbn [app length].
      change (delete (S (length l1)) (p :: (l1 ++ ws :: l2)))
        with (p :: delete (length l1) (l1 ++ ws :: l2)).
      by rewrite Hdel.
Qed.

(** X8.  [removeFromQueue] takes the first occurrence of the socket out
    of the queue and keeps the others in their order; for a socket that
    is not waiting the state is left as it is.  Rooms, sockets and what
    was sent are never touched. *)
Theorem removeFromQueue_first_occurrence (ws : conn) (st : State) :
  (ws ∉ waitingPlayers st → matchmaking.removeFromQueue ws st = st)
  ∧ (∀ l1 l2, waitingPlayers st = l1 ++ ws :: l2 → ws ∉ l1 →
     waitingPlayers (matchmaking.removeFromQueue ws st) = l1 ++ l2)
  ∧ rooms (matchmaking.removeFromQueue ws st) = rooms st
  ∧ sockets (matchmaking.removeFromQueue ws st) = sockets st
  ∧ sent (matchmaking.removeFromQueue ws st) = sent st.
Proof.
  destruct (removeFromQueue_frame ws st) as (Hr & Hs & Hsent & _).
  split_and!; try done.
  - intros Hnot%indexOf_None. unfold matchmaking.removeFromQueue. by rewrite Hnot.
  - intros l1 l2 Hq Hnot. unfold matchmaking.removeFromQueue.
    destruct (indexOf_split ws l1 l2 Hnot) as [Hi Hdel].
    rewrite Hq, Hi. cbn [waitingPlayers set_waitingPlayers]. done.
Qed.

Lemma removeFromQueue_first_occurrence_witness :
  let st := set_waitingPlayers [alice; bob; carol; bob] init in
  waitingPlayers (matchmaking.removeFromQueue bob st) = [alice; carol; bob].
Proof.
  intros st.
  destruct (removeFromQueue_first_occurrence bob st) as (_ & Hfirst & _).
  apply (Hfirst [alice] [carol; bob]); [reflexivity|].
  unfold alice, bob. intros Hin%list_elem_of_singleton. lia.
Defined.

Lemma filter_none_live (st : State) (l : list conn) :
  (∀ p, p ∈ l → live st p = false) → filter (fun p => live st p) l = [].
Proof.
  induction l as [|p l IH]; intros Hdead; [done|].
  rewrite filter_cons_False.
  - apply IH. intros q Hq. apply Hdead. by right.
  - intros Hp. rewrite (Hdead p) in Hp; [done|by left].
Qed.

(** X9.  [joinPublicQueue] serves the queue first come, first served,
    among the open sockets.  When the queue is made of closed sockets,
    then an open one, then others, the arrival is paired with that open
    one: the room holds the two, it first; the closed sockets before it
    are dropped, and of those behind it the open ones stay queued, in
    their order.  When no socket of the queue is open, all are dropped,
    no room is made, and the arrival waits alone and is told so. *)
Theorem joinPublicQueue_first_open (rnd : list nat) (now : Z) (ws : conn) (st : State) :
  let st' := matchmaking.joinPublicQueue rnd now ws st in
  (∀ l1 opponent l2,
     waitingPlayers st = l1 ++ opponent :: l2 →
     (∀ p, p ∈ l1 → live st p = false) → live st opponent = true →
     rooms st' !! JStr (utils.generateRoomId rnd)
     = Some {| players := [opponent; ws]; isPrivate := false; createdAt := now;
               ready_p1 := false; ready_p2 := false |}
     ∧ waitingPlayers st' = filter (fun p => live st p) l2)
  ∧ ((∀ p, p ∈ waitingPlayers st → live st p = false) →
     waitingPlayers st' = [ws] ∧ rooms st' = rooms st
     ∧ sent st' = sent st ++
         [{| target := ws; payload := Waiting; on_wire := live st ws |}]).
Proof.
  intros st'. subst st'. split.
  - intros l1 opponent l2 Hq Hdead Hlive.
    assert (Hf : filter (fun p => live st p) (waitingPlayers st)
                 = opponent :: filter (fun p => live st p) l2).
    { rewrite Hq, filter_app, (filter_none_live st l1 Hdead).
      rewrite filter_cons_True by (by rewrite Hlive). done. }
    destruct (joinPublicQueue_pairs rnd now ws st opponent _ Hf) as (Hr & Hw & _).
    split; [|done]. rewrite Hr. apply lookup_insert_eq.
  - intros Hdead. rewrite joinPublicQueue_waits by (by apply filter_none_live).
    done.
Qed.

Lemma joinPublicQueue_first_open_witness :
  let st := set_waitingPlayers [alice; bob; carol]
              (step (Transport alice CLOSED) init) in
  waitingPlayers (matchmaking.joinPublicQueue rnd0 7 3%nat st) = [carol]
  ∧ players <$> rooms (matchmaking.joinPublicQueue rnd0 7 3%nat st) !! JStr "4FZYO82M"
    = Some [bob; 3%nat].
Proof.
  intros st.
  destruct (joinPublicQueue_first_open rnd0 7 3%nat st) as [Hpair _].
  destruct (Hpair [alice] bob [carol]) as [Hroom Hq].
  - reflexivity.
  - intros p ->%list_elem_of_singleton. vm_compute. reflexivity.
  - vm_compute. reflexivity.
  - split.
    + rewrite Hq. vm_compute. reflexivity.
    + change (JStr "4FZYO82M") with (JStr (utils.generateRoomId rnd0)).
      rewrite Hroom. reflexivity.
Defined.

(** ** The relay and the rematch request, at their edges *)

Lemma find_other_Some (ws o : conn) (l : list conn) :
  find_other ws l = Some o → o ∈ l ∧ o ≠ ws.
Proof.
  unfold find_other. intros [Hin Hne]%List.find_some. split.
  - by apply list_elem_of_In.
  - apply negb_true_iff in Hne. by apply bool_decide_eq_false in Hne.
Qed.

(** X10.  The relay sends one message at most, and never back to the
    sender: when it sends, it is the message as it came, to a player of
    the room the message names, other than the sender, whose socket is
    open.  It changes neither rooms, sockets nor queue, and for an id
    that no room has it does nothing. *)
Theorem relaySignal_at_most_one (ws : conn) (data : Data) (st : State) :
  let st' := gameActions.relaySignal ws data st in
  rooms st' = rooms st ∧ sockets st' = sockets st
  ∧ waitingPlayers st' = waitingPlayers st
  ∧ (rooms st !! msg_roomId data = None → st' = st)
  ∧ (sent st' = sent st
     ∨ ∃ room o,
         rooms st !! msg_roomId data = Some room
         ∧ o ∈ players room ∧ o ≠ ws ∧ live st o = true
         ∧ sent st' = sent st ++
             [{| target := o; payload := Relayed data; on_wire := true |}]).
Proof.
  intros st'. subst st'.
  destruct (relaySignal_frame ws data st) as (Hr & Hw & Hs & _).
  split_and!; try done.
  - intros Hnone. unfold gameActions.relaySignal, utils.getOpponent. by rewrite Hnone.
  - unfold gameActions.relaySignal, utils.getOpponent.
    destruct (rooms st !! msg_roomId data) as [room|] eqn:Hroom; [|by left].
    destruct (find_other ws (players room)) as [o|] eqn:Ho; [|by left].
    destruct (live st o) eqn:Hlive; [|by left].
    right. exists room, o. apply find_other_Some in Ho as [Hin Hne].
    split_and!; try done. unfold utils.send. cbn [sent set_sent]. by rewrite Hlive.
Qed.

(** X11.  A rematch request is ignored, the state being left as it is,
    when no room has the id it names, when that room does not hold two
    players, and when the sender is not one of its players. *)
Theorem handleNewGameRequest_ignored (rnd : list nat) (ws : conn) (data : Data)
    (st : State) :
  let st' := gameActions.handleNewGameRequest rnd ws data st in
  (rooms st !! msg_roomId data = None → st' = st)
  ∧ (∀ room, rooms st !! msg_roomId data = Some room →
       length (players room) ≠ 2%nat → st' = st)
  ∧ (∀ room, rooms st !! msg_roomId data = Some room →
       ws ∉ players room → st' = st).
Proof.
  intros st'. subst st'. unfold gameActions.handleNewGameRequest. split_and!.
  - by intros ->.
  - intros room -> Hlen. destruct (Nat.eqb_spec (length (players room)) 2); done.
  - intros room -> Hnot%indexOf_None. rewrite Hnot.
    by destruct (negb _).
Qed.

(** ** The sweep, twice *)

(** X12.  Sweeping twice at the same instant is sweeping once: the
    rooms the first sweep leaves are not stale, and the second leaves
    them all. *)
Theorem cleanup_idempotent (now : Z) (st : State) :
  cleanup now (cleanup now st) = cleanup now st.
Proof.
  assert (Hrooms : rooms (cleanup now (cleanup now st)) = rooms (cleanup now st)).
  { apply map_eq. intros k.
    destruct (rooms (cleanup now st) !! k) as [r|] eqn:Hk.
    - rewrite (cleanup_lookup (cleanup now st) now k r Hk).
      assert (stale (cleanup now st) now r = false) as ->; [|done].
      change (stale (cleanup now st) now r) with (stale st now r).
      destruct (rooms st !! k) as [r0|] eqn:Hk0.
      + rewrite (cleanup_lookup st now k r0 Hk0) in Hk.
        destruct (stale st now r0) eqn:Hst; [done|]. by injection Hk as <-.
      + by rewrite (cleanup_adds_nothing st now k Hk0) in Hk.
    - by apply cleanup_adds_nothing. }
  unfold cleanup at 1. unfold cleanup at 1 in Hrooms. cbn [rooms set_rooms] in Hrooms.
  rewrite Hrooms. reflexivity.
Qed.

(** ** The ids the server makes up, when the random text is long enough *)

Lemma length_string_of_list_ascii (l : list Ascii.ascii) :
  String.length (String.string_of_list_ascii l) = length l.
Proof. induction l as [|c l IH]; cbn; [done|by rewrite IH]. Qed.

Lemma length_substring_exact (m : nat) (s : string) :
  (m ≤ String.length s)%nat → String.length (String.substring 0 m s) = m.
Proof.
  revert s. induction m as [|m IH]; intros [|c s]; cbn; try lia.
  intros Hlen. rewrite IH; lia.
Qed.

Lemma digit36_capital (d : nat) :
  (d < 36)%nat → digit_or_capital (upper_ascii (digit36 d)) = true.
Proof. intros Hd. do 36 (destruct d as [|d]; [reflexivity|]). lia. Qed.

Lemma substring_capital (m : nat) (s : string) :
  forallb (fun c => digit_or_capital (upper_ascii c))
    (String.list_ascii_of_string s) = true →
  forallb digit_or_capital
    (String.list_ascii_of_string (toUpperCase (String.substring 0 m s))) = true.
Proof.
  revert s. induction m as [|m IH]; intros [|c s]; cbn; try done.
  intros [Hc Hs]%andb_prop. rewrite Hc. cbn. by apply IH.
Qed.

(** With digits below 36, every character of the id is a digit or a
    capital letter: the small letters of the radix-36 text have been
    turned into capitals. *)
Lemma generateRoomId_capitals (rnd : list nat) :
  Forall (fun d => (d < 36)%nat) rnd →
  forallb digit_or_capital
    (String.list_ascii_of_string (utils.generateRoomId rnd)) = true.
Proof.
  intros Hrnd. unfold utils.generateRoomId, js_substring, toString36.
  destruct rnd as [|d rnd]; [reflexivity|].
  change (String.substring 2 (10 - 2) ("0." +:+ ?s)) with (String.substring 0 8 s).
  apply substring_capital.
  rewrite String.list_ascii_of_string_of_list_ascii.
  induction Hrnd as [|d' l Hd _ IH]; [done|].
  cbn [map forallb]. by rewrite digit36_capital.
Qed.

(** X13.  The id made from the random source never has more than 8
    characters; with digits below 36 they are all in [[0-9A-Z]], digits
    and capital letters and no small letter; and when the radix-36 text
    of the random number has at least 8 digits after the point, the id
    has exactly 8 characters and passes [isValidRoomId]. *)
Theorem generateRoomId_eight_digits (rnd : list nat) :
  (String.length (utils.generateRoomId rnd) ≤ 8)%nat
  ∧ (Forall (fun d => (d < 36)%nat) rnd →
     forallb digit_or_capital
       (String.list_ascii_of_string (utils.generateRoomId rnd)) = true)
  ∧ ((8 ≤ length rnd)%nat →
     String.length (utils.generateRoomId rnd) = 8%nat
     ∧ utils.isValidRoomId (JStr (utils.generateRoomId rnd)) = true).
Proof.
  split; [apply generateRoomId_length|]. split; [apply generateRoomId_capitals|].
  intros Hlen.
  assert (Height : String.length (utils.generateRoomId rnd) = 8%nat).
  { unfold utils.generateRoomId, js_substring, toString36. rewrite length_toUpperCase.
    destruct rnd as [|d rnd]; [cbn in Hlen; lia|].
    change (String.substring 2 (10 - 2) ("0." +:+ ?s)) with (String.substring 0 8 s).
    apply length_substring_exact.
    rewrite length_string_of_list_ascii, length_map. done. }
  split; [done|]. cbn [utils.isValidRoomId]. by rewrite Height.
Qed.

Lemma generateRoomId_eight_digits_witness :
  forallb digit_or_capital (String.list_ascii_of_string (utils.generateRoomId rnd0)) = true
  ∧ String.length (utils.generateRoomId rnd0) = 8%nat
  ∧ utils.isValidRoomId (JStr (utils.generateRoomId rnd0)) = true.
Proof.
  destruct (generateRoomId_eight_digits rnd0) as (_ & Hcapitals & Height).
  split.
  - apply Hcapitals. unfold rnd0. repeat constructor.
  - apply Height. unfold rnd0. cbn [length]. lia.
Defined.

(** ** A socket closes: the edges *)

Lemma removeFromQueue_NoDup_gone (ws : conn) (st : State) :
  NoDup (waitingPlayers st) →
  ws ∉ waitingPlayers (matchmaking.removeFromQueue ws st).
Proof.
  intros Hnodup.
  destruct (decide (ws ∈ waitingPlayers st)) as [Hin|Hnot].
  - apply list_elem_of_split_l in Hin as (l1 & l2 & Hq & Hl1).
    unfold matchmaking.removeFromQueue.
    destruct (indexOf_split ws l1 l2 Hl1) as [Hi Hdel].
    rewrite Hq, Hi. cbn [waitingPlayers set_waitingPlayers]. rewrite Hdel.
    rewrite Hq in Hnodup. apply NoDup_app in Hnodup as (_ & Hdisj & Hl2).
    apply NoDup_cons in Hl2 as [Hl2 _].
    rewrite elem_of_app. by intros [?|?].
  - unfold matchmaking.removeFromQueue.
    by rewrite (proj2 (indexOf_None ws (waitingPlayers st)) Hnot).
Qed.

Lemma handleDisconnect_twice (ws : conn) (st : State) :
  rooms.handleDisconnect ws (rooms.handleDisconnect ws st) = rooms.handleDisconnect ws st.
Proof.
  assert (Hcases :
    rooms.handleDisconnect ws st = st
    ∨ (truthy (roomId (sockets st ws)) = true
       ∧ sockets (rooms.handleDisconnect ws st) = sockets st
       ∧ rooms (rooms.handleDisconnect ws st) !! roomId (sockets st ws) = None)).
  { unfold rooms.handleDisconnect.
    destruct (truthy (roomId (sockets st ws))) eqn:Htruthy; cbn [negb]; [|by left].
    destruct (rooms st !! roomId (sockets st ws)) as [room|] eqn:Hroom; [|by left].
    right. split; [done|].
    match goal with |- context [rooms.remove ?k ?s] =>
      destruct (remove_spec k s) as (-> & _ & -> & _) end.
    split; [|apply lookup_delete_eq].
    destruct (find_other ws (players room)) as [o|]; [|done].
    by destruct (live st o). }
  destruct Hcases as [Hsame|(Htruthy & Hs & Hgone)].
  - by rewrite !Hsame.
  - unfold rooms.handleDisconnect at 1. rewrite Hs, Htruthy. cbn [negb].
    by rewrite Hgone.
Qed.

(** X14.  The close of a socket can be handled twice without harm:
    with a queue free of duplicates, handling it a second time changes
    nothing, the socket being out of the queue and its room out of the
    table after the first. *)
Theorem onClose_idempotent (ws : conn) (st : State) :
  NoDup (waitingPlayers st) →
  onClose ws (onClose ws st) = onClose ws st.
Proof.
  intros Hnodup. unfold onClose at 1.
  assert (ws ∉ waitingPlayers (onClose ws st)) as Hnot.
  { unfold onClose. rewrite handleDisconnect_waitingPlayers.
    by apply removeFromQueue_NoDup_gone. }
  assert (matchmaking.removeFromQueue ws (onClose ws st) = onClose ws st) as ->.
  { unfold matchmaking.removeFromQueue.
    by rewrite (proj2 (indexOf_None ws _) Hnot). }
  unfold onClose. apply handleDisconnect_twice.
Qed.

Lemma onClose_idempotent_witness :
  onClose bob (onClose bob private_pair) = onClose bob private_pair.
Proof.
  apply onClose_idempotent. apply queue_short_NoDup.
  by destruct (reachable_Inv private_pair (reachable_run _)).
Defined.

Lemma find_other_None (ws : conn) (l : list conn) :
  find_other ws l = None ↔ ∀ p, p ∈ l → p = ws.
Proof.
  unfold find_other. induction l as [|q l IH]; cbn.
  - split; [|done]. intros _ p Hp. by apply elem_of_nil in Hp.
  - case_bool_decide as Hq; cbn.
    + rewrite IH. split.
      * intros Hall p [->|Hp]%elem_of_cons; auto.
      * intros Hall p Hp. apply Hall. by right.
    + split; [done|]. intros Hall. exfalso. apply Hq, Hall. by left.
Qed.

(** X15.  A close that finds nobody to tell.  When the socket names no
    room (it never created or joined one, or the id is the empty
    string), or names a room that is not in the table any more, rooms
    and log are left as they are.  When it names a room with no other
    player in it (it is alone there, or sits in both slots), the room is
    removed and nothing is sent. *)
Theorem onClose_without_opponent (ws : conn) (st : State) :
  let id := roomId (sockets st ws) in
  let st' := onClose ws st in
  (truthy id = false ∨ rooms st !! id = None →
     rooms st' = rooms st ∧ sent st' = sent st)
  ∧ (∀ room, truthy id = true → rooms st !! id = Some room →
       (∀ p, p ∈ players room → p = ws) →
       rooms st' = delete id (rooms st) ∧ sent st' = sent st).
Proof.
  intros id st'. subst st'.
  destruct (removeFromQueue_frame ws st) as (Hr & Hs & Hsent & _).
  unfold onClose, rooms.handleDisconnect. rewrite Hs. fold id. split.
  - intros [Hfalsy|Hnone].
    + rewrite Hfalsy. cbn [negb]. done.
    + destruct (negb (truthy id)); [done|]. by rewrite Hr, Hnone.
  - intros room Htruthy Hroom Halone%find_other_None.
    rewrite Htruthy. cbn [negb]. rewrite Hr, Hroom, Halone.
    match goal with |- context [rooms.remove ?k ?s] =>
      destruct (remove_spec k s) as (-> & _ & _ & -> & _) end.
    by rewrite Hr, Hsent.
Qed.

Lemma onClose_without_opponent_witness :
  rooms (onClose alice private_alone) !! JStr "ROOM1" = None
  ∧ sent (onClose alice private_alone) = sent private_alone.
Proof.
  destruct (onClose_without_opponent alice private_alone) as [_ Halone].
  destruct (Halone {| players := [alice]; isPrivate := true; createdAt := 0;
                      ready_p1 := false; ready_p2 := false |})
    as [Hr Hsent].
  - vm_compute. reflexivity.
  - vm_compute. reflexivity.
  - intros p Hp%list_elem_of_singleton. exact Hp.
  - split; [|exact Hsent]. rewrite Hr. apply lookup_delete_eq.
Defined.

(** ** Private rooms, from opening to relaying *)

Lemma live_same_env (st st' : State) (p : conn) :
  same_env st st' → live st' p = live st p.
Proof.
  intros [_ Hready].
  change (live st' p) with (bool_decide (readyState (sockets st' p) = OPEN)).
  change (live st p) with (bool_decide (readyState (sockets st p) = OPEN)).
  by rewrite Hready.
Qed.



(** ** Broadcasting to a room *)

Lemma broadcast_fold (data : Outbound) (excludeWs : option conn) (l : list conn)
    (st : State) :
  sent (foldl (fun acc player =>
                 if decide (Some player = excludeWs) then acc
                 else utils.send player data acc) st l)
  = sent st ++
      map (fun p => {| target := p; payload := data; on_wire := live st p |})
          (filter (fun p => Some p ≠ excludeWs) l).
Proof.
  revert st. induction l as [|p l IH]; intros st.
  - cbn. by rewrite app_nil_r.
  - cbn [foldl]. case_decide as Hp.
    + rewrite IH. by rewrite filter_cons_False by (by intros ?).
    + rewrite IH. rewrite filter_cons_True by done.
      cbn [map sent utils.send set_sent]. rewrite <- app_assoc. reflexivity.
Qed.

(** X17.  [broadcastToRoom] sends the message once to every player of
    the room, in their order, leaving out the excluded socket when one is
    given; a message to a socket that is not open is not put on the
    wire.  For an id that no room has nothing happens; rooms, sockets and
    queue are never touched. *)
Theorem broadcastToRoom_sent (id : jsval) (data : Outbound) (excludeWs : option conn)
    (st : State) :
  let st' := utils.broadcastToRoom id data excludeWs st in
  (rooms st !! id = None → st' = st)
  ∧ (∀ room, rooms st !! id = Some room →
     sent st' = sent st ++
       map (fun p => {| target := p; payload := data; on_wire := live st p |})
           (filter (fun p => Some p ≠ excludeWs) (players room)))
  ∧ rooms st' = rooms st ∧ sockets st' = sockets st
  ∧ waitingPlayers st' = waitingPlayers st.
Proof.
  intros st'. subst st'.
  destruct (broadcastToRoom_frame id data excludeWs st) as (Hr & Hw & Hs & _).
  split_and!; try done.
  - intros Hnone. unfold utils.broadcastToRoom. by rewrite Hnone.
  - intros room Hroom. unfold utils.broadcastToRoom. rewrite Hroom.
    apply broadcast_fold.
Qed.

Lemma broadcastToRoom_sent_witness :
  sent (utils.broadcastToRoom (JStr "ROOM1") OpponentDisconnected (Some alice)
          private_pair_closing)
  = sent private_pair_closing ++
      [{| target := bob; payload := OpponentDisconnected; on_wire := false |}].
Proof.
  destruct (broadcastToRoom_sent (JStr "ROOM1") OpponentDisconnected (Some alice)
              private_pair_closing) as (_ & Hsent & _).
  rewrite (Hsent {| players := [alice; bob]; isPrivate := true; createdAt := 0;
                    ready_p1 := false; ready_p2 := false |})
    by (vm_compute; reflexivity).
  vm_compute. reflexivity.
Defined.

(** ** Ids that are used again *)

(** X18.  An id can be used again once its room has been removed:
    after [rooms.remove], a [createPrivate] under that id, if it is
    well formed, is answered [waiting] and puts a new private room there
    that holds the creator alone, with no flag set, whatever the removed
    room was. *)
Theorem createPrivate_after_remove (now : Z) (ws : conn) (data : Data) (st : State) :
  utils.isValidRoomId (msg_roomId data) = true →
  let id := msg_roomId data in
  let st' := handlers.createPrivate now ws data (rooms.remove id st) in
  rooms st' = <[id := {| players := [ws]; isPrivate := true; createdAt := now;
                         ready_p1 := false; ready_p2 := false |}]> (rooms st)
  ∧ sent st' = sent st ++
      [{| target := ws; payload := Waiting; on_wire := live st ws |}].
Proof.
  intros Hvalid id st'. subst st'.
  destruct (remove_spec id st) as (Hr & _ & Hs & Hsent & _).
  rewrite createPrivate_creates; [|done|by rewrite Hr, lookup_delete_eq].
  unfold utils.send, rooms.create, handlers.nameSocket.
  cbn [rooms sent set_sent]. autorewrite with frame. cbn [rooms sent set_rooms].
  autorewrite with frame. rewrite Hr, Hsent, (live_ext st _ ws Hs).
  split; [|done]. by rewrite insert_delete_eq.
Qed.

Lemma createPrivate_after_remove_witness :
  players <$> rooms (handlers.createPrivate 30 carol (message "createPrivate" "Carol" "ROOM1")
                       (rooms.remove (JStr "ROOM1") private_pair)) !! JStr "ROOM1"
  = Some [carol].
Proof.
  destruct (createPrivate_after_remove 30 carol (message "createPrivate" "Carol" "ROOM1")
              private_pair) as [Hr _].
  - vm_compute. reflexivity.
  - change (msg_roomId (message "createPrivate" "Carol" "ROOM1")) with (JStr "ROOM1") in Hr.
    rewrite Hr, lookup_insert_eq. reflexivity.
Defined.



(** ** A rematch needs both players *)

Lemma askAgain_cons (ws : conn) (call : list nat * Data) (calls : list (list nat * Data))
    (st : State) :
  askAgain ws (call :: calls) st
  = askAgain ws calls (gameActions.handleNewGameRequest call.1 ws call.2 st).
Proof. reflexivity. Qed.

(** X20.  One player cannot start a new game alone.  In a room of two
    different players where the other's flag is not set, however many
    rematch requests the same player sends, the counter of games does
    not move, the room is left with the flag of that player set and the
    other not, and all that is sent is [opponentRequestedNewGame] to the
    other player, one per request at most. *)
Theorem rematch_needs_both (ws opp : conn) (id : jsval) (marked : Room)
    (calls : list (list nat * Data)) (room : Room) (st : State) :
  rooms st !! id = Some room →
  ws ≠ opp →
  seated ws opp room false marked →
  Forall (fun call => msg_roomId call.2 = id) calls →
  let st' := askAgain ws calls st in
  totalGamesPlayed st' = totalGamesPlayed st
  ∧ (calls ≠ [] → rooms st' = <[id := marked]> (rooms st))
  ∧ ∃ added,
      sent st' = sent st ++ added
      ∧ (length added ≤ length calls)%nat
      ∧ ∀ e, e ∈ added →
          target e = opp ∧ ∃ r, payload e = OpponentRequestedNewGame r.
Proof.
  intros Hroom Hne Hseat Hcalls. revert st room Hroom Hseat.
  induction Hcalls as [|[rnd data] calls Hid _ IH]; intros st room Hroom Hseat st'.
  - subst st'. cbn. split; [done|]. split; [done|].
    exists []. rewrite app_nil_r. split; [done|]. split; [done|].
    intros e He. by apply elem_of_nil in He.
  - subst st'. rewrite askAgain_cons. cbn [fst snd] in *.
    destruct (rematch_waits rnd ws opp data st room false marked)
      as (Hr & Hs & _ & Ht); try done; [by rewrite Hid|].
    rewrite Hid in Hr.
    destruct (IH (gameActions.handleNewGameRequest rnd ws data st) marked)
      as (Ht' & Hr' & added & Hs' & Hlen & Hall).
    { rewrite Hr. apply lookup_insert_eq. }
    { by apply (seated_again ws opp room). }
    split; [by rewrite Ht', Ht|]. split.
    + intros _. destruct calls as [|call calls].
      * done.
      * rewrite Hr' by done. rewrite Hr. apply insert_insert_eq.
    + rewrite Hs', Hs, <- app_assoc. eexists. split; [done|].
      destruct (live st opp); cbn [app length]; split; try lia.
      * intros e [->|He]%elem_of_cons; [|by apply Hall].
        split; [done|]. by eexists.
      * done.
Qed.

Lemma rematch_needs_both_witness :
  let call := (rnd0, message "readyForNewGame" "Alice" "ROOM1") in
  totalGamesPlayed (askAgain alice [call; call; call] private_pair) = 0%nat.
Proof.
  intros call.
  destruct (rematch_needs_both alice bob (JStr "ROOM1")
              (set_ready true false
                 {| players := [alice; bob]; isPrivate := true; createdAt := 0;
                    ready_p1 := false; ready_p2 := false |})
              [call; call; call]
              {| players := [alice; bob]; isPrivate := true; createdAt := 0;
                 ready_p1 := false; ready_p2 := false |}
              private_pair) as [Htotal _].
  - vm_compute. reflexivity.
  - unfold alice, bob. lia.
  - left. split_and!; reflexivity.
  - repeat constructor.
  - rewrite Htotal. vm_compute. reflexivity.
Defined.

Lemma rematch_both_slots_step (rnd : list nat) (a : conn) (data : Data) (st : State)
    (room : Room) :
  rooms st !! msg_roomId data = Some room →
  players room = [a; a] → ready_p2 room = false →
  let st' := gameActions.handleNewGameRequest rnd a data st in
  rooms st' = <[msg_roomId data := set_ready true false room]> (rooms st)
  ∧ sent st' = sent st
  ∧ totalGamesPlayed st' = totalGamesPlayed st.
Proof.
  intros Hroom Hplayers Hp2 st'. subst st'.
  unfold gameActions.handleNewGameRequest.
  rewrite Hroom, Hplayers. cbn [length]. rewrite Nat.eqb_refl. cbn [negb].
  rewrite indexOf_first. rewrite decide_True by done.
  rewrite Hp2. cbn [ready_p1 ready_p2 set_ready andb].
  unfold utils.getOpponent. autorewrite with frame. cbn [rooms set_rooms].
  rewrite lookup_insert_eq. cbn [players set_ready]. rewrite Hplayers.
  assert (find_other a [a; a] = None) as ->.
  { apply find_other_None. intros p Hp.
    repeat (apply elem_of_cons in Hp as [->|Hp]; [done|]). by apply elem_of_nil in Hp. }
  autorewrite with frame. done.
Qed.

(** X21.  A socket that sits in both slots of a room, as after being
    paired with itself, can never bring a rematch about: its requests
    set the flag of the first slot only, so that, the second not being
    set, the counter of games does not move and nothing is sent, however
    many requests it sends. *)
Theorem rematch_never_completes_alone (a : conn) (id : jsval)
    (calls : list (list nat * Data)) (room : Room) (st : State) :
  rooms st !! id = Some room →
  players room = [a; a] → ready_p2 room = false →
  Forall (fun call => msg_roomId call.2 = id) calls →
  let st' := askAgain a calls st in
  totalGamesPlayed st' = totalGamesPlayed st
  ∧ sent st' = sent st
  ∧ (calls ≠ [] → rooms st' = <[id := set_ready true false room]> (rooms st)).
Proof.
  intros Hroom Hplayers Hp2 Hcalls. revert st room Hroom Hplayers Hp2.
  induction Hcalls as [|[rnd data] calls Hid _ IH]; intros st room Hroom Hplayers Hp2 st'.
  - done.
  - subst st'. rewrite askAgain_cons. cbn [fst snd] in *.
    destruct (rematch_both_slots_step rnd a data st room) as (Hr & Hs & Ht); try done;
      [by rewrite Hid|].
    rewrite Hid in Hr.
    destruct (IH (gameActions.handleNewGameRequest rnd a data st)
                (set_ready true false room)) as (Ht' & Hs' & Hr'); try done.
    { rewrite Hr. apply lookup_insert_eq. }
    split; [by rewrite Ht', Ht|]. split; [by rewrite Hs', Hs|].
    intros _. destruct calls as [|call calls]; [done|].
    rewrite Hr' by done. rewrite Hr. apply insert_insert_eq.
Qed.

Lemma rematch_never_completes_alone_witness :
  let call := (rnd0, message "readyForNewGame" "Alice" "4FZYO82M") in
  sent (askAgain alice [call; call] public_twice) = sent public_twice.
Proof.
  intros call.
  destruct (rematch_never_completes_alone alice (JStr "4FZYO82M") [call; call]
              {| players := [alice; alice]; isPrivate := false; createdAt := 5;
                 ready_p1 := false; ready_p2 := false |}
              public_twice) as (_ & Hsent & _).
  - vm_compute. reflexivity.
  - reflexivity.
  - reflexivity.
  - repeat constructor.
  - exact Hsent.
Defined.

(** ** The name a sender carries *)

Lemma js_or_default_twice (v : jsval) (s t : string) :
  s ≠ "" → js_or (js_or v (JStr s)) (JStr t) = js_or v (JStr s).
Proof. intros Hs. apply js_or_truthy. by apply truthy_js_or_string. Qed.

Lemma sockets_announceMatch (id : jsval) (ps : list conn) (st : State) :
  sockets (announceMatch id ps st) = sockets st.
Proof.
  unfold announceMatch. by destruct (announceFrom_frame id ps ps 0 st) as (_ & _ & -> & _).
Qed.

Lemma joinPublicQueue_pairs_sockets (rnd : list nat) (now : Z) (ws : conn)
    (st : State) (opponent : conn) (rest : list conn) :
  filter (fun p => live st p) (waitingPlayers st) = opponent :: rest →
  let id := JStr (utils.generateRoomId rnd) in
  let named := fun s => set_displayName (js_or (displayName s) (JStr "Player")) s in
  sockets (matchmaking.joinPublicQueue rnd now ws st)
  = sockets (update_socket ws (set_roomId id)
               (update_socket ws named
                  (update_socket opponent named
                     (update_socket opponent (set_roomId id) st)))).
Proof.
  intros Hq id named. unfold matchmaking.joinPublicQueue.
  cbn [waitingPlayers set_waitingPlayers]. rewrite Hq. fold id.
  set (st_named := update_socket ws _ (update_socket opponent _ _)).
  assert (Hroom : rooms st_named !! id
                  = Some {| players := [opponent]; isPrivate := false;
                            createdAt := now; ready_p1 := false; ready_p2 := false |}).
  { subst st_named. unfold rooms.create. autorewrite with frame.
    cbn [rooms set_rooms]. apply lookup_insert_eq. }
  destruct (rooms_join_seats id ws st_named _ Hroom) as (_ & _ & Hs & _); [cbn; lia|].
  destruct (rooms.join id ws st_named) as [joined s1|s1]; cbn [state] in *.
  - match goal with |- sockets (match ?o with _ => _ end) = _ =>
      destruct o as [room|] end; [|exact Hs].
    destruct (length (players room) =? 2)%nat;
      rewrite ?sockets_announceMatch; exact Hs.
  - exact Hs.
Qed.

(** X22.  After [joinPublic], [createPrivate] or [joinPrivate], whatever
    comes of it, the sender carries a name that is never empty: the
    [displayName] of the message when it has one, and "Player" when it
    has none or an empty one. *)
Theorem sender_is_named (h : Handler) (ws : conn) (data : Data) (now : Z)
    (rnd : list nat) (st : State) :
  h = HJoinPublic ∨ h = HCreatePrivate ∨ h = HJoinPrivate →
  let st' := step (Message h ws data now rnd) st in
  displayName (sockets st' ws) = js_or (msg_displayName data) (JStr "Player")
  ∧ truthy (displayName (sockets st' ws)) = true.
Proof.
  intros Hh st'.
  assert (Hname : displayName (sockets st' ws)
                  = js_or (msg_displayName data) (JStr "Player")).
  { subst st'. destruct Hh as [->|[->| ->]]; cbn [step].
    - match goal with |- context [caught ?w ?c] =>
        destruct (caught_frame w c) as (_ & _ & -> & _) end.
      unfold handlers.joinPublic.
      destruct (filter (fun p => live (handlers.nameSocket ws data st) p)
                  (waitingPlayers (handlers.nameSocket ws data st)))
        as [|opponent rest] eqn:Hf.
      + rewrite joinPublicQueue_waits by done. cbn [state].
        unfold handlers.nameSocket. by sockets_simpl.
      + rewrite (joinPublicQueue_pairs_sockets rnd now ws _ opponent rest Hf).
        unfold handlers.nameSocket.
        destruct (decide (opponent = ws)) as [->|Hne]; sockets_simpl;
          by rewrite !js_or_default_twice.
    - destruct (utils.isValidRoomId (msg_roomId data)) eqn:Hvalid.
      + destruct (rooms st !! msg_roomId data) as [room|] eqn:Hroom.
        * rewrite createPrivate_taken by done. unfold handlers.nameSocket.
          by sockets_simpl.
        * rewrite createPrivate_creates by done.
          unfold rooms.create, handlers.nameSocket. by sockets_simpl.
      + rewrite createPrivate_invalid by done. unfold handlers.nameSocket.
        by sockets_simpl.
    - match goal with |- context [caught ?w ?c] =>
        destruct (caught_frame w c) as (_ & _ & -> & _) end.
      destruct (utils.isValidRoomId (msg_roomId data)) eqn:Hvalid.
      + destruct (rooms st !! msg_roomId data) as [room|] eqn:Hroom.
        * destruct (Nat.leb_spec 2 (length (players room))) as [Hfull|Hfree].
          -- rewrite (joinPrivate_full _ _ _ room) by done. cbn [state].
             unfold handlers.nameSocket. by sockets_simpl.
          -- destruct (joinPrivate_seats ws data st room) as (_ & _ & -> & _);
               [done..|].
             unfold handlers.nameSocket. by sockets_simpl.
        * rewrite joinPrivate_missing by done. cbn [state].
          unfold handlers.nameSocket. by sockets_simpl.
      + rewrite joinPrivate_invalid by done. cbn [state].
        unfold handlers.nameSocket. by sockets_simpl. }
  split; [done|]. rewrite Hname. by apply truthy_js_or_string.
Qed.

Lemma sender_is_named_witness :
  let data := {| msg_type := JStr "joinPublic"; msg_displayName := JStr "";
                 msg_roomId := JUndef; msg_reqId := JUndef; msg_body := "" |} in
  displayName (sockets (step (Message HJoinPublic bob data 3 rnd0) public_waiting) bob)
  = JStr "Player".
Proof.
  intros data.
  destruct (sender_is_named HJoinPublic bob data 3 rnd0 public_waiting) as [Hname _].
  - by left.
  - rewrite Hname. reflexivity.
Defined.

(** ** The flags of the handshake, at rest *)

Lemma Flags_frame (st st' : State) : rooms st' = rooms st → Flags st → Flags st'.
Proof. unfold Flags. by intros ->. Qed.

Lemma Flags_insert (st st' : State) (k : jsval) (r : Room) :
  rooms st' = <[k := r]> (rooms st) → flags_ok r → Flags st → Flags st'.
Proof.
  intros Hr Hok HF k' r'. rewrite Hr, lookup_insert.
  case_decide; [|by apply HF]. by intros [= <-].
Qed.

Lemma Flags_delete (st st' : State) (k : jsval) :
  rooms st' = delete k (rooms st) → Flags st → Flags st'.
Proof.
  intros Hr HF k' r'. rewrite Hr, lookup_delete.
  case_decide; [done|by apply HF].
Qed.

Lemma handleNewGameRequest_flags rnd ws data st :
  rooms (gameActions.handleNewGameRequest rnd ws data st) = rooms st
  ∨ ∃ room p1 p2,
      rooms st !! msg_roomId data = Some room
      ∧ length (players room) = 2%nat
      ∧ p1 && p2 = false
      ∧ rooms (gameActions.handleNewGameRequest rnd ws data st)
        = <[msg_roomId data := set_ready p1 p2 room]> (rooms st).
Proof.
  unfold gameActions.handleNewGameRequest.
  destruct (rooms st !! msg_roomId data) as [room|] eqn:Hroom; [|by left].
  destruct (Nat.eqb_spec (length (players room)) 2) as [Htwo|]; cbn [negb]; [|by left].
  destruct (indexOf ws (players room)) as [playerIndex|]; [|by left].
  right. exists room.
  set (room1 := if decide (playerIndex = 0%nat) then _ else _).
  destruct (ready_p1 room1 && ready_p2 room1) eqn:Hboth.
  - exists false, false.
    match goal with |- context [foldl ?f ?s ?l] =>
      destruct (clear_requests_frame l s) as (-> & _) end.
    match goal with |- context [utils.broadcastToRoom ?k ?d ?e ?s] =>
      destruct (broadcastToRoom_frame k d e s) as (-> & _) end.
    split_and!; try done. cbn [rooms set_totalGamesPlayed set_rooms].
    autorewrite with frame. cbn [rooms set_rooms].
    rewrite insert_insert_eq. subst room1. by case_decide.
  - exists (ready_p1 room1), (ready_p2 room1). split_and!; try done.
    assert (set_ready (ready_p1 room1) (ready_p2 room1) room = room1) as ->
      by (subst room1; by case_decide).
    destruct (utils.getOpponent _ _ _) as [o|]; [|done].
    by destruct (live _ o).
Qed.

Lemma step_Flags (i : Input) (st : State) : Flags st → Flags (step i st).
Proof.
  intros HF. destruct i as [ws|h ws data now rnd|ws|now|ws r]; cbn [step].
  - revert HF. by apply Flags_frame.
  - destruct h.
    + match goal with |- Flags (caught ?w ?c) =>
        destruct (caught_frame w c) as (Hc & _) end.
      apply (Flags_frame _ _ Hc). clear Hc.
      unfold handlers.joinPublic.
      assert (Flags (handlers.nameSocket ws data st)) as HF'
        by (revert HF; by apply Flags_frame).
      destruct (filter (fun p => live (handlers.nameSocket ws data st) p)
                  (waitingPlayers (handlers.nameSocket ws data st)))
        as [|opponent rest] eqn:Hf.
      * rewrite joinPublicQueue_waits by done. cbn [state].
        revert HF'. by apply Flags_frame.
      * destruct (joinPublicQueue_pairs rnd now ws _ opponent rest Hf) as (Hr & _).
        by apply (Flags_insert _ _ _ _ Hr).
    + destruct (utils.isValidRoomId (msg_roomId data)) eqn:Hvalid.
      * destruct (rooms st !! msg_roomId data) as [room|] eqn:Hroom.
        -- rewrite createPrivate_taken by done. revert HF. by apply Flags_frame.
        -- rewrite createPrivate_creates by done.
           by apply (Flags_insert st _ (msg_roomId data)
                       {| players := [ws]; isPrivate := true; createdAt := now;
                          ready_p1 := false; ready_p2 := false |}).
      * rewrite createPrivate_invalid by done. revert HF. by apply Flags_frame.
    + match goal with |- Flags (caught ?w ?c) =>
        destruct (caught_frame w c) as (Hc & _) end.
      apply (Flags_frame _ _ Hc). clear Hc.
      destruct (utils.isValidRoomId (msg_roomId data)) eqn:Hvalid.
      * destruct (rooms st !! msg_roomId data) as [room|] eqn:Hroom.
        -- destruct (Nat.leb_spec 2 (length (players room))) as [Hfull|Hfree].
           ++ rewrite (joinPrivate_full _ _ _ room) by done.
              revert HF. by apply Flags_frame.
           ++ destruct (joinPrivate_seats ws data st room) as (Hr & _); [done..|].
              apply (Flags_insert st _ (msg_roomId data)
                       (set_players (players room ++ [ws]) room)); [done| |done].
              ** destruct (HF _ _ Hroom) as [_ Hnone].
                 destruct Hnone as [H1 H2]; [lia|].
                 split; cbn [ready_p1 ready_p2 set_players]; by rewrite H1, H2.
        -- rewrite joinPrivate_missing by done. revert HF. by apply Flags_frame.
      * rewrite joinPrivate_invalid by done. revert HF. by apply Flags_frame.
    + destruct (relaySignal_frame ws data st) as (Hr & _). by apply (Flags_frame _ _ Hr).
    + destruct (relaySignal_frame ws data st) as (Hr & _). by apply (Flags_frame _ _ Hr).
    + destruct (relaySignal_frame ws data st) as (Hr & _). by apply (Flags_frame _ _ Hr).
    + unfold handlers.readyForNewGame.
      destruct (handleNewGameRequest_flags rnd ws data st)
        as [Hr|(room & p1 & p2 & Hroom & Htwo & Hboth & Hr)].
      * by apply (Flags_frame _ _ Hr).
      * apply (Flags_insert _ _ _ _ Hr); [|done].
        split; [done|]. cbn [players set_ready]. intros Hlen. lia.
  - unfold onClose.
    assert (Flags (matchmaking.removeFromQueue ws st)) as HF'.
    { destruct (removeFromQueue_frame ws st) as (Hr & _). by apply (Flags_frame _ _ Hr). }
    destruct (handleDisconnect_rooms ws (matchmaking.removeFromQueue ws st)) as [Hr|Hr].
    + by apply (Flags_frame _ _ Hr).
    + by apply (Flags_delete _ _ _ Hr).
  - intros k r Hk.
    destruct (rooms st !! k) as [r0|] eqn:Hk0.
    + rewrite (cleanup_lookup st now k r0 Hk0) in Hk.
      destruct (stale st now r0); [done|]. injection Hk as <-. by apply (HF k).
    + by rewrite (cleanup_adds_nothing st now k Hk0) in Hk.
  - revert HF. by apply Flags_frame.
Qed.

(** X23.  The handshake is at rest between two inputs: from start-up
    and whatever the inputs, no room has both flags set, a round being
    closed in the very request that completes it, and a room that has
    not two players has none set. *)
Theorem reachable_flags (inputs : list Input) (k : jsval) (r : Room) :
  rooms (run inputs init) !! k = Some r →
  (ready_p1 r = false ∨ ready_p2 r = false)
  ∧ (length (players r) ≠ 2%nat → ready_p1 r = false ∧ ready_p2 r = false).
Proof.
  assert (HF : Flags (run inputs init)).
  { induction inputs as [|i inputs IH] using rev_ind.
    - intros k' r'. cbn. by rewrite lookup_empty.
    - rewrite run_snoc. by apply step_Flags. }
  intros Hk. destruct (HF _ _ Hk) as [Hboth Hnone]. split; [|done].
  by apply andb_false_iff.
Qed.

Lemma reachable_flags_witness :
  let inputs :=
    [Message HCreatePrivate alice (message "createPrivate" "Alice" "ROOM1") 0 [];
     Message HJoinPrivate bob (message "joinPrivate" "Bob" "ROOM1") 10 [];
     Message HReadyForNewGame alice (message "readyForNewGame" "Alice" "ROOM1") 20 rnd0] in
  let room := {| players := [alice; bob]; isPrivate := true; createdAt := 0;
                 ready_p1 := true; ready_p2 := false |} in
  rooms (run inputs init) !! JStr "ROOM1" = Some room
  ∧ (ready_p1 room = false ∨ ready_p2 room = false).
Proof.
  intros inputs room.
  assert (Hroom : rooms (run inputs init) !! JStr "ROOM1" = Some room)
    by (vm_compute; reflexivity).
  split; [exact Hroom|].
  destruct (reachable_flags inputs (JStr "ROOM1") room Hroom) as [Hrest _].
  exact Hrest.
Defined.

(** ** An exception in a handler *)

(** X24.  A display name that cannot be converted to a string makes
    [joinPrivate] fail halfway.  When a socket asks, under such a name,
    to join a room that holds its creator alone, the log line of
    [rooms.join] throws once the socket has been seated: the room has
    two players and the socket names the room, no [matchFound] has been
    sent, and the dispatcher answers the sender with the error "Server
    error occurred".  The room is then full for everyone: whoever asks
    to join it afterwards is answered [roomFull]. *)
Theorem joinPrivate_exception_answered (ws creator : conn) (data : Data) (now : Z)
    (rnd : list nat) (room : Room) (st : State) :
  utils.isValidRoomId (msg_roomId data) = true →
  rooms st !! msg_roomId data = Some room →
  players room = [creator] →
  stringifies (msg_displayName data) = false →
  let id := msg_roomId data in
  let st' := step (Message HJoinPrivate ws data now rnd) st in
  returned (handlers.joinPrivate ws data st) = None
  ∧ sent st' = sent st ++
      [{| target := ws; payload := Error_ "Server error occurred";
          on_wire := live st ws |}]
  ∧ rooms st' = <[id := set_players [creator; ws] room]> (rooms st)
  ∧ roomId (sockets st' ws) = id
  ∧ ∀ c d now' rnd', msg_roomId d = id →
      sent (step (Message HJoinPrivate c d now' rnd') st') = sent st' ++
        [{| target := c; payload := RoomFull id; on_wire := live st c |}].
Proof.
  intros Hvalid Hroom Hplayers Hname id st'.
  assert (Hnames : forallb (printable (handlers.nameSocket ws data st))
                     (players room ++ [ws]) = false).
  { rewrite Hplayers. cbn [app forallb].
    rewrite (printable_nameSocket_eq ws), Hname. cbn [andb]. apply andb_false_r. }
  assert (Hthrows := joinPrivate_throws ws data st room Hvalid Hroom
                       ltac:(rewrite Hplayers; cbn; lia) Hnames).
  rewrite Hplayers in Hthrows. cbn [app] in Hthrows. fold id in Hthrows.
  assert (Hst' : st' = utils.send ws (Error_ "Server error occurred")
            (update_socket ws (set_roomId id)
               (set_rooms (<[id := set_players [creator; ws] room]> (rooms st))
                  (handlers.nameSocket ws data st)))).
  { subst st'. cbn [step]. by rewrite Hthrows. }
  assert (Hrooms : rooms st' = <[id := set_players [creator; ws] room]> (rooms st)).
  { rewrite Hst'. unfold utils.send. cbn [rooms set_sent].
    by autorewrite with frame. }
  split; [by rewrite Hthrows|]. split.
  { rewrite Hst'. unfold utils.send. cbn [sent set_sent].
    autorewrite with frame. cbn [sent set_rooms].
    unfold handlers.nameSocket. by autorewrite with frame. }
  split; [exact Hrooms|]. split.
  { rewrite Hst'. unfold utils.send. cbn [sockets set_sent].
    by rewrite sockets_update_socket_eq. }
  intros c d now' rnd' Hd. cbn [step].
  assert (Hfull : rooms st' !! msg_roomId d = Some (set_players [creator; ws] room))
    by (rewrite Hrooms, Hd; apply lookup_insert_eq).
  rewrite (joinPrivate_full c d st' _ ltac:(by rewrite Hd) Hfull) by (cbn; lia).
  cbn [caught]. unfold utils.send at 1. cbn [sent set_sent].
  rewrite live_nameSocket, Hd.
  assert (Hlive : live st' c = live st c).
  { apply live_same_env. subst st'.
    by apply (step_same_env (Message HJoinPrivate ws data now rnd) st). }
  rewrite Hlive. unfold handlers.nameSocket. by autorewrite with frame.
Qed.

Lemma joinPrivate_exception_answered_witness :
  let data := message_unprintable "joinPrivate" "ROOM1" in
  let st' := step (Message HJoinPrivate bob data 10 []) private_alone in
  sent st' = sent private_alone ++
    [{| target := bob; payload := Error_ "Server error occurred"; on_wire := true |}]
  ∧ sent (step (Message HJoinPrivate carol (message "joinPrivate" "Carol" "ROOM1") 20 []) st')
    = sent st' ++
        [{| target := carol; payload := RoomFull (JStr "ROOM1"); on_wire := true |}].
Proof.
  intros data st'.
  destruct (joinPrivate_exception_answered bob alice data 10 []
              {| players := [alice]; isPrivate := true; createdAt := 0;
                 ready_p1 := false; ready_p2 := false |} private_alone)
    as (_ & Hsent & _ & _ & Hlater).
  - vm_compute. reflexivity.
  - vm_compute. reflexivity.
  - reflexivity.
  - reflexivity.
  - split; [exact Hsent|].
    exact (Hlater carol (message "joinPrivate" "Carol" "ROOM1") 20 [] eq_refl).
Defined.
